(** * slackbot_fabric: a shallow embedding of [slackbot_fabric.py]

    The development follows the source file top to bottom:

    - Python text ([str]) and the character classes used by [re] and
      [str.strip];
    - the fragment of [re] needed by the three patterns of the source, as a
      backtracking matcher with Python's leftmost, first-alternative
      semantics, together with a declarative reading of the patterns;
    - [extract_video_id];
    - the run directory and its paths ([os.path.join], [strftime]);
    - [process_youtube_url], [process_message_text] and
      [handle_message_events] in a small monad threading the file system,
      recording the external calls, and carrying Python exceptions.

    [custom_error_handler] only writes to the log and [main] only starts
    the socket handler of the chat framework; neither is modelled.

    Text is modelled as a list of characters whose code points lie below
    256; the tables for [\w], [\s] and white space are CPython's, restricted
    to that range.  Logging and the [time.time()] readings only feed the log
    and are left out. *)

From Stdlib Require Import ZArith Ascii DecimalString.
From stdpp Require Import base option list strings gmap.

Local Open Scope Z_scope.
#[local] Set Warnings "-clear-no-such-hyp".

(* ------------------------------------------------------------------ *)
(** * Text and character classes *)

Module Text.

Abbreviation text := (list ascii).

(** A Python string literal. *)
Definition str (s : string) : text := Stdlib.Strings.String.list_ascii_of_string s.

Definition code (c : ascii) : Z := Z.of_N (N_of_ascii c).

Definition between (lo hi : Z) (c : ascii) : bool :=
  (lo <=? code c) && (code c <=? hi).

Definition is_char (x : ascii) (c : ascii) : bool :=
  bool_decide (c = x).

(** [Py_UNICODE_ISSPACE], used both by [\s] and by [str.strip()]. *)
Definition is_space (c : ascii) : bool :=
  between 9 13 c || between 28 32 c || (code c =? 133) || (code c =? 160).

(** [Py_UNICODE_ISALNUM]: letters, decimal digits and the other numeric
    characters of the first 256 code points. *)
Definition is_alnum (c : ascii) : bool :=
  between 48 57 c || between 65 90 c || between 97 122 c
  || (code c =? 170) || between 178 179 c || (code c =? 181)
  || between 185 186 c || between 188 190 c
  || between 192 214 c || between 216 246 c || between 248 255 c.

(** [\w] *)
Definition is_word (c : ascii) : bool := is_alnum c || is_char "_" c.

(** [[\w-]] *)
Definition is_word_or_hyphen (c : ascii) : bool := is_word c || is_char "-" c.

(** [.] without [re.DOTALL]: anything but a line feed. *)
Definition is_dot (c : ascii) : bool := negb (code c =? 10).

(** [s.startswith(p)] *)
Fixpoint startswith (p s : text) : bool :=
  match p, s with
  | [], _ => true
  | a :: p', b :: s' => bool_decide (a = b) && startswith p' s'
  | _ :: _, [] => false
  end.

(** [s[len(p):]] when [s.startswith(p)]. *)
Fixpoint strip_prefix (p s : text) : option text :=
  match p, s with
  | [], _ => Some s
  | a :: p', b :: s' => if bool_decide (a = b) then strip_prefix p' s' else None
  | _ :: _, [] => None
  end.

(** [str.strip()] with no argument: CPython advances an index from the
    left and one from the right over white space and returns the slice in
    between. *)
Fixpoint lstrip (s : text) : text :=
  match s with
  | c :: s' => if is_space c then lstrip s' else s
  | [] => []
  end.

Definition rstrip (s : text) : text := reverse (lstrip (reverse s)).

Definition strip (s : text) : text := rstrip (lstrip s).

(** The truth value of a string: empty is false. *)
Definition truthy (s : text) : bool :=
  match s with [] => false | _ => true end.

End Text.
Import Text.

(* ------------------------------------------------------------------ *)
(** * The fragment of [re] the source uses *)

Module Re.

(** Abstract syntax of the patterns.  Repetition only ever applies to a
    one-character class in the source ([\s+], [.+?], [[\w-]{11}]), so the
    repetition nodes carry a class rather than a sub-pattern. *)
Inductive regex : Type :=
| Lit (w : text)                        (* literal characters *)
| Class (p : ascii → bool)              (* one character of a class *)
| Seq (r1 r2 : regex)                   (* r1 r2 *)
| Alt (r1 r2 : regex)                   (* r1|r2, r1 tried first *)
| Opt (r : regex)                       (* r?  (greedy) *)
| Plus (p : ascii → bool)               (* p+  (greedy) *)
| PlusLazy (p : ascii → bool)           (* p+? (lazy) *)
| Count (n : nat) (p : ascii → bool)    (* p{n} *)
| Group (r : regex).                    (* ( r ), capturing group 1 *)

(** The state of capturing group 1: unset, or the text it last matched. *)
Abbreviation capture := (option text).

Section Matcher.
Context {A : Type}.

(** Continuations receive the rest of the subject and the capture. *)
Abbreviation cont := (text → capture → option A).

(** [p*] greedy: consume as much as possible, give back one character
    at a time. *)
Fixpoint star_greedy (p : ascii → bool) (s : text) (k : text → option A)
  : option A :=
  match s with
  | c :: s' =>
      if p c then
        match star_greedy p s' k with
        | Some a => Some a
        | None => k s
        end
      else k s
  | [] => k s
  end.

(** [p*?] lazy: stop as early as possible, take one more character on
    failure. *)
Fixpoint star_lazy (p : ascii → bool) (s : text) (k : text → option A)
  : option A :=
  match k s with
  | Some a => Some a
  | None =>
      match s with
      | c :: s' => if p c then star_lazy p s' k else None
      | [] => None
      end
  end.

(** [p{n}] *)
Fixpoint count_class (n : nat) (p : ascii → bool) (s : text)
    (k : text → option A) : option A :=
  match n with
  | O => k s
  | S n' =>
      match s with
      | c :: s' => if p c then count_class n' p s' k else None
      | [] => None
      end
  end.

(** The backtracking matcher: try to match [r] at the head of [s], then
    hand over to [k]; a failure of [k] backtracks into [r]. *)
Fixpoint run (r : regex) (s : text) (g : capture) (k : cont) : option A :=
  match r with
  | Lit w =>
      match strip_prefix w s with
      | Some s' => k s' g
      | None => None
      end
  | Class p =>
      match s with
      | c :: s' => if p c then k s' g else None
      | [] => None
      end
  | Seq r1 r2 => run r1 s g (λ s' g', run r2 s' g' k)
  | Alt r1 r2 =>
      match run r1 s g k with
      | Some a => Some a
      | None => run r2 s g k
      end
  | Opt r1 =>
      match run r1 s g k with
      | Some a => Some a
      | None => k s g
      end
  | Plus p =>
      match s with
      | c :: s' => if p c then star_greedy p s' (λ t, k t g) else None
      | [] => None
      end
  | PlusLazy p =>
      match s with
      | c :: s' => if p c then star_lazy p s' (λ t, k t g) else None
      | [] => None
      end
  | Count n p => count_class n p s (λ t, k t g)
  | Group r1 =>
      run r1 s g (λ s' _, k s' (Some (take (length s - length s') s)))
  end.
End Matcher.

(** A match object, reduced to what the source reads from it:
    [m.group(1)], which is [None] when the group did not take part. *)
Record match_object := { group1 : capture }.

(** [pattern.match(s)]: anchored at the start only. *)
Definition match_at (r : regex) (s : text) : option match_object :=
  run r s None (λ _ g, Some {| group1 := g |}).

(** [re.fullmatch(pattern, s)]: the whole subject. *)
Definition fullmatch (r : regex) (s : text) : option match_object :=
  run r s None (λ s' g, match s' with [] => Some {| group1 := g |} | _ => None end).

(** [re.search(pattern, s)]: the leftmost start position at which the
    pattern matches, the end of the subject included. *)
Fixpoint search (r : regex) (s : text) : option match_object :=
  match match_at r s with
  | Some m => Some m
  | None =>
      match s with
      | _ :: s' => search r s'
      | [] => None
      end
  end.

(** A continuation whose success does not depend on the capture. *)
Definition blind {A} (k : text → capture → option A) : Prop :=
  ∀ t g1 g2, is_Some (k t g1) → is_Some (k t g2).

(** ** Declarative reading

    [matches r w g g']: the word [w] belongs to the language of [r], and
    matching it turns the capture [g] into [g']. *)
Inductive matches : regex → text → capture → capture → Prop :=
| m_lit w g : matches (Lit w) w g g
| m_class (p : ascii → bool) c g : p c = true → matches (Class p) [c] g g
| m_seq r1 r2 w1 w2 g g1 g2 :
    matches r1 w1 g g1 → matches r2 w2 g1 g2 →
    matches (Seq r1 r2) (w1 ++ w2) g g2
| m_alt_l r1 r2 w g g' : matches r1 w g g' → matches (Alt r1 r2) w g g'
| m_alt_r r1 r2 w g g' : matches r2 w g g' → matches (Alt r1 r2) w g g'
| m_opt_some r w g g' : matches r w g g' → matches (Opt r) w g g'
| m_opt_none r g : matches (Opt r) [] g g
| m_plus (p : ascii → bool) w g :
    w ≠ [] → forallb p w = true → matches (Plus p) w g g
| m_plus_lazy (p : ascii → bool) w g :
    w ≠ [] → forallb p w = true → matches (PlusLazy p) w g g
| m_count (p : ascii → bool) w g :
    forallb p w = true → matches (Count (length w) p) w g g
| m_group r w g g' : matches r w g g' → matches (Group r) w g (Some w).

End Re.
Import Re.

(* ------------------------------------------------------------------ *)
(** * [extract_video_id] *)

(** [r'(?:v=|\/)([\w-]{11})'] *)
Definition pattern_v_or_slash : regex :=
  Seq (Alt (Lit (str "v=")) (Lit (str "/")))
      (Group (Count 11 is_word_or_hyphen)).

(** [r'(?:youtu.be\/)([\w-]{11})']; the dot is not escaped in the source and
    stands for any character but a line feed. *)
Definition pattern_short_domain : regex :=
  Seq (Seq (Lit (str "youtu")) (Seq (Class is_dot) (Lit (str "be/"))))
      (Group (Count 11 is_word_or_hyphen)).

Definition patterns : list regex := [pattern_v_or_slash; pattern_short_domain].

(** The [for] loop over [patterns]: the first pattern that is found
    anywhere in [url] decides, and its group 1 is returned. *)
Fixpoint first_match (ps : list regex) (url : text) : option text :=
  match ps with
  | [] => None
  | pattern :: ps' =>
      match search pattern url with
      | Some m => group1 m
      | None => first_match ps' url
      end
  end.

Definition extract_video_id (url : text) : option text :=
  first_match patterns url.

(** The variant the redundancy claim compares with: only the first rule. *)
Definition extract_video_id_first_rule_only (url : text) : option text :=
  first_match [pattern_v_or_slash] url.


(* ------------------------------------------------------------------ *)
(** * The run directory *)

Module Workspace.

(** [posixpath.join(a, b)]: an absolute [b] replaces [a]; otherwise the two
    are put together with exactly one separator between them. *)
Definition path_join (a b : text) : text :=
  if startswith (str "/") b then b
  else if negb (truthy a) || bool_decide (last a = Some "/"%char) then a ++ b
  else a ++ str "/" ++ b.

(** [WORK_DIR = os.path.join(os.getcwd(), "youtube_transcripts")] *)
Definition WORK_DIR (cwd : text) : text :=
  path_join cwd (str "youtube_transcripts").

(** The fields of a naive [datetime], as [datetime.now()] returns it. *)
Record datetime := {
  year : Z; month : Z; day : Z;
  hour : Z; minute : Z; second : Z;
  microsecond : Z }.

(** The ranges the [datetime] constructor enforces (the day is bounded by 31
    here; the length of the month plays no role below). *)
Definition valid_datetime (d : datetime) : Prop :=
  1 <= year d <= 9999 ∧ 1 <= month d <= 12 ∧ 1 <= day d <= 31 ∧
  0 <= hour d < 24 ∧ 0 <= minute d < 60 ∧ 0 <= second d < 60 ∧
  0 <= microsecond d < 1000000.

(** One decimal digit, the last one of [n]. *)
Definition digit (n : Z) : ascii := ascii_of_N (Z.to_N (48 + n mod 10)).

(** [%m], [%d], [%H], [%M], [%S]: two digits, zero padded. *)
Definition pad2 (n : Z) : text := [digit (n / 10); digit n].

(** [%Y]: four digits, zero padded. *)
Definition pad4 (n : Z) : text :=
  [digit (n / 1000); digit (n / 100); digit (n / 10); digit n].

(** [d.strftime("%Y%m%d_%H%M%S")] *)
Definition strftime (d : datetime) : text :=
  pad4 (year d) ++ pad2 (month d) ++ pad2 (day d) ++ str "_"
  ++ pad2 (hour d) ++ pad2 (minute d) ++ pad2 (second d).

(** [os.path.join(WORK_DIR, f"{video_id}_{timestamp}")] *)
Definition run_dir (cwd video_id : text) (d : datetime) : text :=
  path_join (WORK_DIR cwd) (video_id ++ str "_" ++ strftime d).

(** [os.path.join(run_dir, f"{video_id}.txt")] *)
Definition transcript_path (dir video_id : text) : text :=
  path_join dir (video_id ++ str ".txt").

(** [os.path.join(run_dir, f"{video_id}_wisdom.txt")] *)
Definition wisdom_path (dir video_id : text) : text :=
  path_join dir (video_id ++ str "_wisdom.txt").

(** The position of a [datetime] on the time line, in microseconds:
    [toordinal()] days (proleptic Gregorian), then the time of day. *)
Definition is_leap (y : Z) : bool :=
  (y mod 4 =? 0) && (negb (y mod 100 =? 0) || (y mod 400 =? 0)).

Definition days_before_year (y : Z) : Z :=
  let p := y - 1 in p * 365 + p / 4 - p / 100 + p / 400.

Definition days_before_month (y m : Z) : Z :=
  nth (Z.to_nat (m - 1)) [0; 31; 59; 90; 120; 151; 181; 212; 243; 273; 304; 334] 0
  + (if (2 <? m) && is_leap y then 1 else 0).

Definition toordinal (d : datetime) : Z :=
  days_before_year (year d) + days_before_month (year d) (month d) + day d.

Definition microseconds (d : datetime) : Z :=
  (((toordinal d * 24 + hour d) * 60 + minute d) * 60 + second d) * 1000000
  + microsecond d.

(** The identifiers the extractor hands out. *)
Definition valid_identifier (v : text) : Prop :=
  length v = 11%nat ∧ forallb is_word_or_hyphen v = true.

End Workspace.
Import Workspace.

(* ------------------------------------------------------------------ *)
(** * Effects: file system, external calls, exceptions *)

Module Effects.

(** [subprocess.run] takes an argument list, or a line for the shell. *)
Inductive command :=
| Argv (args : list text)
| ShellLine (line : text).

(** The exceptions that reach the handlers of the source.
    [CalledProcessError] is what [check=True] raises on a non-zero exit
    status; everything else that derives from [Exception] is kept by its
    message, which is all the source reads of it. *)
Inductive exn :=
| CalledProcessError (returncode : Z) (cmd : command)
| OtherException (message : text).

(** What a call that leaves the process can answer. *)
Inductive io_outcome :=
| Done
| Fault (message : text).

Inductive proc_outcome :=
| Exited (returncode : Z) (stdout stderr : text)
| SpawnFault (message : text).

(** The external calls a run makes, in the order it makes them, each with
    the answer it got. *)
Inductive event :=
| EMakedirs (path : text) (o : io_outcome)
| EOpen (path : text) (o : io_outcome)
| EWrite (path data : text) (o : io_outcome)
| ERun (cmd : command) (o : proc_outcome)
| EPost (channel message : text) (o : io_outcome).

(** The files as the program itself leaves them: path to contents.  The
    map records what the program writes ([open(.., 'w')], [f.write], the
    redirection of a standard output); what a tool writes on its own
    account, or what the shell does with the line it is given, is not
    followed.  Statements about files are therefore about the writes of
    the program. *)
Abbreviation files := (gmap text text).

(** Everything the model takes from outside: the working directory and the
    clock, the answers of the operating system, of the two tools and of the
    chat client, and two interpreter built-ins whose tables are not spelled
    out here ([repr] of a [str], and the names of the signals). *)
Record world := {
  getcwd : text;
  now : datetime;
  makedirs : text → io_outcome;
  open_for_writing : text → io_outcome;
  write_file : text → text → io_outcome;
  spawn : command → files → proc_outcome;
  post_message : text → text → io_outcome;
  repr_str : text → text;
  repr_signal : Z → option text }.

Inductive result (A : Type) :=
| Return (a : A)
| Raise (e : exn).
Arguments Return {A} a.
Arguments Raise {A} e.

(** A computation reads and updates the files, lists the external calls it
    made, and returns or raises. *)
Definition M (A : Type) : Type := files → result A * files * list event.

#[global] Instance M_ret : MRet M := λ A a σ, (Return a, σ, []).

#[global] Instance M_bind : MBind M := λ A B f m σ,
  match m σ with
  | (Return a, σ1, t1) =>
      match f a σ1 with
      | (r, σ2, t2) => (r, σ2, t1 ++ t2)
      end
  | (Raise e, σ1, t1) => (Raise e, σ1, t1)
  end.

Definition raise {A} (e : exn) : M A := λ σ, (Raise e, σ, []).

(** [try: body except ... as e: handler e] where the handlers together
    cover every exception of the model. *)
Definition try_except {A} (body : M A) (handler : exn → M A) : M A := λ σ,
  match body σ with
  | (Return a, σ1, t1) => (Return a, σ1, t1)
  | (Raise e, σ1, t1) =>
      match handler e σ1 with
      | (r, σ2, t2) => (r, σ2, t1 ++ t2)
      end
  end.

Definition outcome_of {A} (m : M A) (σ : files) : result A := (m σ).1.1.
Definition files_after {A} (m : M A) (σ : files) : files := (m σ).1.2.
Definition events_of {A} (m : M A) (σ : files) : list event := (m σ).2.

(** [os.makedirs(path, exist_ok=True)] *)
Definition os_makedirs (w : world) (path : text) : M unit := λ σ,
  match makedirs w path with
  | Done => (Return (), σ, [EMakedirs path Done])
  | Fault msg => (Raise (OtherException msg), σ, [EMakedirs path (Fault msg)])
  end.

(** [open(path, 'w')]: creates the file, or empties it. *)
Definition open_w (w : world) (path : text) : M unit := λ σ,
  match open_for_writing w path with
  | Done => (Return (), <[path := []]> σ, [EOpen path Done])
  | Fault msg => (Raise (OtherException msg), σ, [EOpen path (Fault msg)])
  end.

(** [f.write(data)] on a file just opened with ['w']. *)
Definition write (w : world) (path data : text) : M unit := λ σ,
  match write_file w path data with
  | Done => (Return (), <[path := data]> σ, [EWrite path data Done])
  | Fault msg => (Raise (OtherException msg), σ, [EWrite path data (Fault msg)])
  end.

(** [subprocess.run(cmd, check=True, ...)].  With [stdout_to = Some path]
    the standard output of the process goes to that (open) file and nothing
    is captured; otherwise it is captured and returned.  A non-zero exit
    status raises [CalledProcessError].  The process answers with its exit
    status and its two output streams; of its effects on the files only
    the redirected standard output is recorded. *)
Definition subprocess_run (w : world) (cmd : command) (stdout_to : option text)
  : M text := λ σ,
  match spawn w cmd σ with
  | Exited rc out err =>
      let σ1 := match stdout_to with Some path => <[path := out]> σ | None => σ end in
      let captured := match stdout_to with Some _ => [] | None => out end in
      if rc =? 0 then (Return captured, σ1, [ERun cmd (Exited rc out err)])
      else (Raise (CalledProcessError rc cmd), σ1, [ERun cmd (Exited rc out err)])
  | SpawnFault msg =>
      (Raise (OtherException msg), σ, [ERun cmd (SpawnFault msg)])
  end.

(** [client.chat_postMessage(channel=channel, text=message)] *)
Definition chat_postMessage (w : world) (channel message : text) : M unit := λ σ,
  match post_message w channel message with
  | Done => (Return (), σ, [EPost channel message Done])
  | Fault msg => (Raise (OtherException msg), σ, [EPost channel message (Fault msg)])
  end.

(** ["%d" % n] *)
Definition decimal (n : Z) : text := str (NilZero.string_of_int (Z.to_int n)).

(** ["%s" % cmd]: the [repr] of a list, or the line itself. *)
Fixpoint join_comma (l : list text) : text :=
  match l with
  | [] => []
  | [x] => x
  | x :: l' => x ++ str ", " ++ join_comma l'
  end.

Definition command_str (w : world) (cmd : command) : text :=
  match cmd with
  | Argv args => str "[" ++ join_comma (map (repr_str w) args) ++ str "]"
  | ShellLine line => line
  end.

(** [str(e)]; for [CalledProcessError] this is its [__str__]. *)
Definition exn_str (w : world) (e : exn) : text :=
  match e with
  | CalledProcessError rc cmd =>
      if rc <? 0 then
        match repr_signal w (- rc) with
        | Some name =>
            str "Command '" ++ command_str w cmd ++ str "' died with " ++ name ++ str "."
        | None =>
            str "Command '" ++ command_str w cmd ++ str "' died with unknown signal "
            ++ decimal (- rc) ++ str "."
        end
      else
        str "Command '" ++ command_str w cmd ++ str "' returned non-zero exit status "
        ++ decimal rc ++ str "."
  | OtherException msg => msg
  end.

End Effects.
Import Effects.

(* ------------------------------------------------------------------ *)
(** * [process_youtube_url] *)

(** [["yt", "--transcript", url]] *)
Definition transcript_command (url : text) : command :=
  Argv [str "yt"; str "--transcript"; url].

(** [f"cat {transcript_path} | fabric --pattern extract_wisdom"], run by
    the shell. *)
Definition fabric_command (path : text) : command :=
  ShellLine (str "cat " ++ path ++ str " | fabric --pattern extract_wisdom").

(** The body of the [try]. *)
Definition pipeline (w : world) (url video_id : text) : M text :=
  let dir := run_dir (getcwd w) video_id (now w) in
  _ ← os_makedirs w dir;
  let transcript := transcript_path dir video_id in
  _ ← open_w w transcript;
  _ ← subprocess_run w (transcript_command url) (Some transcript);
  let wisdom := wisdom_path dir video_id in
  stdout ← subprocess_run w (fabric_command transcript) None;
  _ ← open_w w wisdom;
  _ ← write w wisdom stdout;
  mret (strip stdout).

(** The two [except] clauses, in the order of the source. *)
Definition handlers (w : world) (e : exn) : M text :=
  match e with
  | CalledProcessError _ _ => mret (str "Error processing video: " ++ exn_str w e)
  | OtherException _ => mret (str "Unexpected error: " ++ exn_str w e)
  end.

Definition process_youtube_url (w : world) (url : text) : M text :=
  match extract_video_id url with
  | Some video_id =>
      if truthy video_id then try_except (pipeline w url video_id) (handlers w)
      else mret (str "Invalid YouTube URL format")
  | None => mret (str "Invalid YouTube URL format")
  end.

(* ------------------------------------------------------------------ *)
(** * [process_message_text] *)

(** The line feed of the Python literals. *)
Definition nl : text := ["010"%char].

(** [https?://(?:www\.)?(?:youtube\.com|youtu\.be)/.+?] *)
Definition url_pattern : regex :=
  Seq (Lit (str "http")) (Seq (Opt (Lit (str "s"))) (Seq (Lit (str "://"))
  (Seq (Opt (Lit (str "www.")))
  (Seq (Alt (Lit (str "youtube.com")) (Lit (str "youtu.be")))
  (Seq (Lit (str "/")) (PlusLazy is_dot)))))).

(** [r"extract_wisdom\s+<(https?://(?:www\.)?(?:youtube\.com|youtu\.be)/.+?)>"] *)
Definition command_pattern : regex :=
  Seq (Lit (str "extract_wisdom")) (Seq (Plus is_space)
  (Seq (Lit (str "<")) (Seq (Group url_pattern) (Lit (str ">"))))).

Definition trigger : text := str "extract_wisdom".

Definition ack_text : text :=
  str "Processing your request... :hourglass_flowing_sand:".

Definition usage_text : text :=
  str "Please provide a YouTube URL wrapped in angle brackets, like this:"
  ++ nl ++ str "extract_wisdom <https://youtube.com/...>".

(** [f"Here's the extracted wisdom:\n```\n{result}\n```"] *)
Definition result_text (result : text) : text :=
  str "Here's the extracted wisdom:" ++ nl ++ str "```" ++ nl
  ++ result ++ nl ++ str "```".

(** The guard of the outer [if]. *)
Definition has_trigger (message : text) : bool :=
  truthy message && startswith trigger message.

(** The guard of the inner [if]. *)
Definition is_command (message : text) : bool :=
  has_trigger message && bool_decide (is_Some (search command_pattern message)).

Definition process_message_text (w : world) (message channel : text) : M unit :=
  if has_trigger message then
    match search command_pattern message with
    | Some m =>
        match group1 m with
        | Some url =>
            _ ← chat_postMessage w channel ack_text;
            result ← process_youtube_url w url;
            chat_postMessage w channel (result_text result)
        | None =>
            (* [url] would be [None], and [re.search] inside
               [extract_video_id] raises a [TypeError] on it *)
            _ ← chat_postMessage w channel ack_text;
            raise (OtherException (str "expected string or bytes-like object"))
        end
    | None => chat_postMessage w channel usage_text
    end
  else mret ().

(* ------------------------------------------------------------------ *)
(** * [handle_message_events] *)

(** A JSON object as the handler reads it: a dict from keys to values.  Of
    the body only the entry ["event"] is read, itself an object; of the
    event only the string-valued fields ["text"] and ["channel"] are used
    (["user"] is only logged), and ["subtype"] is only tested for presence. *)
Abbreviation dict := (gmap text).

(** [d[key]]: a missing key raises [KeyError(key)], whose [str] is the
    [repr] of the key. *)
Definition getitem {V} (w : world) (d : dict V) (key : text) : M V :=
  match d !! key with
  | Some v => mret v
  | None => raise (OtherException (repr_str w key))
  end.

(** [key in d] *)
Definition contains {V} (d : dict V) (key : text) : bool :=
  bool_decide (is_Some (d !! key)).

Definition handle_message_events (w : world) (body : dict (dict text)) : M unit :=
  event ← getitem w body (str "event");
  if negb (contains event (str "subtype")) && contains event (str "text") then
    message ← getitem w event (str "text");
    channel ← getitem w event (str "channel");
    process_message_text w message channel
  else mret ().

(* ------------------------------------------------------------------ *)
(** * Vocabulary of the statements *)

(** A bracketed URL of the platform, read off the pattern: scheme, optional
    [www.], one of the two hosts, a slash and at least one more character,
    none of them a line feed. *)
Definition platform_url (u : text) : Prop :=
  ∃ scheme www host rest,
    u = scheme ++ str "://" ++ www ++ host ++ str "/" ++ rest ∧
    (scheme = str "http" ∨ scheme = str "https") ∧
    (www = [] ∨ www = str "www.") ∧
    (host = str "youtube.com" ∨ host = str "youtu.be") ∧
    rest ≠ [] ∧ forallb is_dot rest = true.

(** The text holds, somewhere, a platform URL between angle brackets. *)
Definition contains_bracketed_url (message : text) : Prop :=
  ∃ before u after,
    message = before ++ str "<" ++ u ++ str ">" ++ after ∧ platform_url u.

(** The text holds, somewhere, the command word, white space, and a
    platform URL between angle brackets. *)
Definition contains_command (message : text) : Prop :=
  ∃ before ws u after,
    message = before ++ trigger ++ ws ++ str "<" ++ u ++ str ">" ++ after ∧
    ws ≠ [] ∧ forallb is_space ws = true ∧ platform_url u.

(** The whole text is the command, nothing before and nothing after. *)
Definition anchored_command (message : text) : Prop :=
  ∃ ws u,
    message = trigger ++ ws ++ str "<" ++ u ++ str ">" ∧
    ws ≠ [] ∧ forallb is_space ws = true ∧ platform_url u.

(** The message is treated as a command: the first thing the run does is
    to post the acknowledgment. *)
Definition acknowledged (w : world) (message channel : text) (σ : files) : Prop :=
  ∃ o rest,
    events_of (process_message_text w message channel) σ
    = EPost channel ack_text o :: rest.

(** [<URL>] alone, for deciding [contains_bracketed_url]. *)
Definition bracketed_url_pattern : regex :=
  Seq (Lit (str "<")) (Seq url_pattern (Lit (str ">"))).

Definition is_post (e : event) : bool :=
  match e with EPost _ _ _ => true | _ => false end.

(** A call of the summarizer: any line handed to the shell. *)
Definition is_summarizer_run (e : event) : bool :=
  match e with ERun (ShellLine _) _ => true | _ => false end.

(** The texts posted to the chat, in order. *)
Definition posted_texts (t : list event) : list text :=
  omap (λ e, match e with EPost _ message _ => Some message | _ => None end) t.

(** The two failure texts the pipeline hands back. *)
Definition is_failure_text (s : text) : Prop :=
  (∃ rest, s = str "Error processing video: " ++ rest) ∨
  (∃ rest, s = str "Unexpected error: " ++ rest).

Definition infix_of (needle hay : text) : Prop :=
  ∃ before after, hay = before ++ needle ++ after.

(** A file-system call that raised. *)
Definition is_io_fault (e : event) : bool :=
  match e with
  | EMakedirs _ (Fault _) | EOpen _ (Fault _) | EWrite _ _ (Fault _) => true
  | _ => false
  end.

(** An external call of the pipeline that made Python raise: a fault of the
    file system, a process that could not be run, a non-zero exit status. *)
Definition went_wrong (e : event) : bool :=
  match e with
  | ERun _ (SpawnFault _) => true
  | ERun _ (Exited rc _ _) => negb (rc =? 0)
  | _ => is_io_fault e
  end.

(** Printable ASCII other than the single quote and the backslash. *)
Definition is_plain (c : ascii) : bool :=
  between 32 126 c && negb (is_char "'" c) && negb (is_char "\" c).

(** What is used of [repr] on a [str]: a text of plain characters is put
    between single quotes, unchanged. *)
Definition repr_plain (w : world) : Prop :=
  ∀ s, forallb is_plain s = true → repr_str w s = str "'" ++ s ++ str "'".

(** A call that creates or fills a file. *)
Definition is_file_call (e : event) : bool :=
  match e with EOpen _ _ | EWrite _ _ _ => true | _ => false end.

(** The character [>] does not occur in the text. *)
Definition no_closing_bracket (u : text) : bool :=
  forallb (λ c, negb (is_char ">" c)) u.

(* ------------------------------------------------------------------ *)
(** * Sample data *)

Definition sample_id : text := str "dQw4w9WgXcQ".

Definition sample_url : text := str "https://youtu.be/dQw4w9WgXcQ".

Definition noon : datetime :=
  {| year := 2024; month := 3; day := 1;
     hour := 12; minute := 0; second := 0; microsecond := 250000 |}.

Definition a_second_past_noon : datetime :=
  {| year := 2024; month := 3; day := 1;
     hour := 12; minute := 0; second := 1; microsecond := 250000 |}.

(** What the two tools answer in the samples: [yt_status] and
    [fabric_status] are their exit statuses. *)
Definition sample_spawn (yt_status fabric_status : Z) (cmd : command) (σ : files)
  : proc_outcome :=
  match cmd with
  | Argv _ => Exited yt_status (str "never gonna give you up") []
  | ShellLine _ => Exited fabric_status (str "  IDEAS: persistence. " ++ nl) []
  end.

(** A world in which every call of the operating system and of the chat
    client goes through. *)
Definition sample_world (yt_status fabric_status : Z) : world :=
  {| getcwd := str "/srv/bot";
     now := noon;
     makedirs := λ _, Done;
     open_for_writing := λ _, Done;
     write_file := λ _ _, Done;
     spawn := sample_spawn yt_status fabric_status;
     post_message := λ _ _, Done;
     repr_str := λ s, str "'" ++ s ++ str "'";
     repr_signal := λ _, None |}.

Definition sample_channel : text := str "C024BE91L".

(** The same world, but directories cannot be created. *)
Definition read_only_world : world :=
  {| getcwd := str "/srv/bot";
     now := noon;
     makedirs := λ _, Fault (str "[Errno 30] Read-only file system");
     open_for_writing := λ _, Done;
     write_file := λ _ _, Done;
     spawn := sample_spawn 0 0;
     post_message := λ _ _, Done;
     repr_str := λ s, str "'" ++ s ++ str "'";
     repr_signal := λ _, None |}.

(** The same world, but the transcript tool is not installed. *)
Definition no_yt_world : world :=
  {| getcwd := str "/srv/bot";
     now := noon;
     makedirs := λ _, Done;
     open_for_writing := λ _, Done;
     write_file := λ _ _, Done;
     spawn := λ cmd σ,
       match cmd with
       | Argv _ => SpawnFault (str "[Errno 2] No such file or directory: 'yt'")
       | ShellLine _ => sample_spawn 0 0 cmd σ
       end;
     post_message := λ _ _, Done;
     repr_str := λ s, str "'" ++ s ++ str "'";
     repr_signal := λ _, None |}.

(** The same world, but the chat client refuses every message. *)
Definition muted_world : world :=
  {| getcwd := str "/srv/bot";
     now := noon;
     makedirs := λ _, Done;
     open_for_writing := λ _, Done;
     write_file := λ _ _, Done;
     spawn := sample_spawn 0 0;
     post_message := λ _ _, Fault (str "channel_not_found");
     repr_str := λ s, str "'" ++ s ++ str "'";
     repr_signal := λ _, None |}.

(** A message event as the chat platform delivers it. *)
Definition sample_event (message : text) : dict text :=
  {[ str "type" := str "message"; str "text" := message;
     str "channel" := sample_channel; str "user" := str "U2147483697" ]}.


(* ------------------------------------------------------------------ *)
(** * Tactics *)

(** Unfold one run of the pipeline and split on every answer of the
    outside world, in the order the calls are made. *)
Ltac unfold_run :=
  unfold outcome_of, files_after, events_of, process_youtube_url, pipeline,
    try_except, handlers, os_makedirs, open_w, write, subprocess_run,
    chat_postMessage, raise, mbind, M_bind, mret, M_ret in *.

Ltac split_world :=
  repeat (simpl in *;
    match goal with
    | |- context [match makedirs ?w ?p with _ => _ end] =>
        destruct (makedirs w p) eqn:?
    | |- context [match open_for_writing ?w ?p with _ => _ end] =>
        destruct (open_for_writing w p) eqn:?
    | |- context [match write_file ?w ?p ?d with _ => _ end] =>
        destruct (write_file w p d) eqn:?
    | |- context [match spawn ?w ?c ?f with _ => _ end] =>
        destruct (spawn w c f) eqn:?
    | |- context [if ?rc =? 0 then _ else _] =>
        destruct (Z.eqb_spec rc 0)
    | |- context [match post_message ?w ?c ?m with _ => _ end] =>
        destruct (post_message w c m) eqn:?
    end); simpl in *.

(* ================================================================== *)
(** * Facts about text *)

Section TextFacts.
Implicit Types (s p w : text) (c : ascii).

Lemma strip_prefix_Some p s s' : strip_prefix p s = Some s' ↔ s = p ++ s'.
Proof.
  revert s. induction p as [|a p IH]; intros [|b s]; simpl.
  - split; congruence.
  - split; congruence.
  - split; [discriminate | intros [=]].
  - case_bool_decide; subst.
    + rewrite IH. split; congruence.
    + split; [discriminate | congruence].
Qed.

Lemma strip_prefix_app p s : strip_prefix p (p ++ s) = Some s.
Proof. by apply strip_prefix_Some. Qed.

Lemma startswith_spec p s : startswith p s = true ↔ ∃ s', s = p ++ s'.
Proof.
  revert s. induction p as [|a p IH]; intros [|b s]; simpl.
  - naive_solver.
  - naive_solver.
  - split; [discriminate | intros [? [=]]].
  - rewrite andb_true_iff, bool_decide_eq_true, IH. split.
    + intros [-> [s' ->]]. by exists s'.
    + intros [s' [= -> ->]]. eauto.
Qed.





End TextFacts.

(* ================================================================== *)
(** * The matcher against the declarative reading *)

Section ReFacts.
Context {A : Type}.
Implicit Types (s w : text) (g : capture) (r : regex) (p : ascii → bool).

Lemma star_greedy_sound p s (k : text → option A) a :
  star_greedy p s k = Some a →
  ∃ w s', s = w ++ s' ∧ forallb p w = true ∧ k s' = Some a.
Proof.
  induction s as [|c s IH]; simpl; intros H.
  - exists [], []. done.
  - destruct (p c) eqn:Hc; [|by exists [], (c :: s)].
    destruct (star_greedy p s k) as [b|] eqn:Hs.
    + injection H as ->. destruct (IH eq_refl) as (w & s' & -> & Hw & Hk).
      exists (c :: w), s'. simpl. by rewrite Hc, Hw.
    + by exists [], (c :: s).
Qed.

Lemma star_greedy_complete p w s' (k : text → option A) :
  forallb p w = true → is_Some (k s') → is_Some (star_greedy p (w ++ s') k).
Proof.
  intros Hw Hk. induction w as [|c w IH]; simpl in *.
  - destruct s' as [|c s']; simpl; [done|].
    destruct (p c); [|done]. by destruct (star_greedy p s' k).
  - apply andb_true_iff in Hw as [Hc Hw]. rewrite Hc.
    destruct (IH Hw) as [b ->]. done.
Qed.

Lemma star_lazy_sound p s (k : text → option A) a :
  star_lazy p s k = Some a →
  ∃ w s', s = w ++ s' ∧ forallb p w = true ∧ k s' = Some a.
Proof.
  induction s as [|c s IH]; simpl; intros H.
  - destruct (k []) eqn:Hk; [|done]. exists [], []. by rewrite Hk.
  - destruct (k (c :: s)) eqn:Hk; [exists [], (c :: s); by rewrite Hk|].
    destruct (p c) eqn:Hc; [|done].
    destruct (IH H) as (w & s' & -> & Hw & Hk').
    exists (c :: w), s'. simpl. by rewrite Hc, Hw.
Qed.

Lemma star_lazy_complete p w s' (k : text → option A) :
  forallb p w = true → is_Some (k s') → is_Some (star_lazy p (w ++ s') k).
Proof.
  intros Hw Hk. induction w as [|c w IH]; simpl in *.
  - destruct s' as [|c s']; simpl; destruct Hk as [b ->]; done.
  - apply andb_true_iff in Hw as [Hc Hw].
    destruct (k (c :: w ++ s')); [done|]. rewrite Hc. auto.
Qed.

Lemma count_class_sound n p s (k : text → option A) a :
  count_class n p s k = Some a →
  ∃ w s', s = w ++ s' ∧ length w = n ∧ forallb p w = true ∧ k s' = Some a.
Proof.
  revert s. induction n as [|n IH]; simpl; intros s H.
  - by exists [], s.
  - destruct s as [|c s]; [done|]. destruct (p c) eqn:Hc; [|done].
    destruct (IH _ H) as (w & s' & -> & Hn & Hw & Hk).
    exists (c :: w), s'. simpl. by rewrite Hc, Hw, Hn.
Qed.

Lemma count_class_app p w s' (k : text → option A) :
  forallb p w = true → count_class (length w) p (w ++ s') k = k s'.
Proof.
  induction w as [|c w IH]; simpl; [done|].
  intros [Hc Hw]%andb_true_iff. rewrite Hc. auto.
Qed.

(** Whatever the matcher answers, it is an answer of its continuation, on
    a rest of the subject that a word of the pattern precedes. *)
Lemma run_sound r : ∀ s g (k : text → capture → option A) a,
  run r s g k = Some a →
  ∃ w s' g', s = w ++ s' ∧ matches r w g g' ∧ k s' g' = Some a.
Proof.
  induction r as [w0|p|r1 IH1 r2 IH2|r1 IH1 r2 IH2|r1 IH1|p|p|n p|r1 IH1];
    simpl; intros s g k a H.
  - destruct (strip_prefix w0 s) as [s'|] eqn:Hp; [|done].
    apply strip_prefix_Some in Hp as ->. exists w0, s', g. eauto using matches.
  - destruct s as [|c s]; [done|]. destruct (p c) eqn:Hc; [|done].
    exists [c], s, g. eauto using matches.
  - apply IH1 in H as (w1 & s1 & g1 & -> & Hm1 & H).
    apply IH2 in H as (w2 & s2 & g2 & -> & Hm2 & H).
    exists (w1 ++ w2), s2, g2. rewrite <- (assoc_L (++)). eauto using matches.
  - destruct (run r1 s g k) as [b|] eqn:H1.
    + injection H as ->. apply IH1 in H1 as (w & s' & g' & -> & Hm & H).
      exists w, s', g'. eauto using matches.
    + apply IH2 in H as (w & s' & g' & -> & Hm & H).
      exists w, s', g'. eauto using matches.
  - destruct (run r1 s g k) as [b|] eqn:H1.
    + injection H as ->. apply IH1 in H1 as (w & s' & g' & -> & Hm & H).
      exists w, s', g'. eauto using matches.
    + exists [], s, g. eauto using matches.
  - destruct s as [|c s]; [done|]. destruct (p c) eqn:Hc; [|done].
    apply star_greedy_sound in H as (w & s' & -> & Hw & H).
    exists (c :: w), s', g. split; [done|]. split; [|done].
    apply m_plus; [done|]. simpl. by rewrite Hc.
  - destruct s as [|c s]; [done|]. destruct (p c) eqn:Hc; [|done].
    apply star_lazy_sound in H as (w & s' & -> & Hw & H).
    exists (c :: w), s', g. split; [done|]. split; [|done].
    apply m_plus_lazy; [done|]. simpl. by rewrite Hc.
  - apply count_class_sound in H as (w & s' & -> & <- & Hw & H).
    exists w, s', g. eauto using matches.
  - apply IH1 in H as (w & s' & g' & -> & Hm & H).
    exists w, s', (Some w). split; [done|]. split; [eauto using matches|].
    rewrite <- H. do 2 f_equal.
    rewrite length_app, Nat.add_sub. by rewrite take_app_length.
Qed.

Lemma run_blind r : ∀ s g1 g2 (k : text → capture → option A),
  blind k → is_Some (run r s g1 k) → is_Some (run r s g2 k).
Proof.
  induction r as [w0|p|r1 IH1 r2 IH2|r1 IH1 r2 IH2|r1 IH1|p|p|n p|r1 IH1];
    simpl; intros s g1 g2 k Hk H.
  - destruct (strip_prefix w0 s); eauto.
  - destruct s as [|c s]; [done|]. destruct (p c); eauto.
  - eapply IH1; [|done]. intros t h1 h2. by apply IH2.
  - destruct (run r1 s g1 k) eqn:H1.
    + destruct (IH1 s g1 g2 k Hk) as [b ->]; by rewrite ?H1.
    + destruct (run r1 s g2 k); [done|]. eauto.
  - destruct (run r1 s g1 k) eqn:H1.
    + destruct (IH1 s g1 g2 k Hk) as [b ->]; by rewrite ?H1.
    + destruct (run r1 s g2 k); [done|]. eauto.
  - destruct s as [|c s]; [done|]. destruct (p c); [|done].
    destruct H as [a H]. apply star_greedy_sound in H as (w & s' & -> & Hw & H).
    apply star_greedy_complete; [done|]. apply (Hk _ g1). by rewrite H.
  - destruct s as [|c s]; [done|]. destruct (p c); [|done].
    destruct H as [a H]. apply star_lazy_sound in H as (w & s' & -> & Hw & H).
    apply star_lazy_complete; [done|]. apply (Hk _ g1). by rewrite H.
  - destruct H as [a H]. apply count_class_sound in H as (w & s' & -> & <- & Hw & H).
    rewrite count_class_app by done. apply (Hk _ g1). by rewrite H.
  - eapply IH1; [|done]. intros t h1 h2. done.
Qed.

(** Every word of the pattern that a success of the continuation follows
    is found, possibly after other attempts. *)
Lemma run_complete r w g g' : matches r w g g' →
  ∀ s' (k : text → capture → option A),
    blind k → is_Some (k s' g') → is_Some (run r (w ++ s') g k).
Proof.
  induction 1 as [w g|p c g Hc|r1 r2 w1 w2 g g1 g2 _ IH1 _ IH2
    |r1 r2 w g g' _ IH|r1 r2 w g g' _ IH|r1 w g g' _ IH|r1 g
    |p w g Hne Hw|p w g Hne Hw|p w g Hw|r1 w g g' _ IH];
    simpl; intros s' k Hb Hk.
  - by rewrite strip_prefix_app.
  - by rewrite Hc.
  - rewrite <- (assoc_L (++)). apply IH1.
    + intros t h1 h2. by apply run_blind.
    + by apply IH2.
  - destruct (IH s' k Hb Hk) as [b ->]. done.
  - destruct (run r1 (w ++ s') g k); [done|]. by apply IH.
  - destruct (IH s' k Hb Hk) as [b ->]. done.
  - destruct (run r1 s' g k); [done|]. done.
  - destruct w as [|c w]; [done|]. simpl in *.
    apply andb_true_iff in Hw as [-> Hw]. by apply star_greedy_complete.
  - destruct w as [|c w]; [done|]. simpl in *.
    apply andb_true_iff in Hw as [-> Hw]. by apply star_lazy_complete.
  - by rewrite count_class_app.
  - apply IH; [by intros t h1 h2|].
    by rewrite length_app, Nat.add_sub, take_app_length.
Qed.

End ReFacts.

Section SearchFacts.
Implicit Types (s w : text) (g : capture) (r : regex).

Lemma match_at_sound r s m :
  match_at r s = Some m → ∃ w s', s = w ++ s' ∧ matches r w None (group1 m).
Proof.
  intros H. apply run_sound in H as (w & s' & g' & -> & Hm & [= <-]).
  by exists w, s'.
Qed.

Lemma match_at_complete r w s' g' :
  matches r w None g' → is_Some (match_at r (w ++ s')).
Proof.
  intros Hm. eapply run_complete; [done| |done]. by intros t g1 g2 _.
Qed.

Lemma search_sound r s m :
  search r s = Some m →
  ∃ before w after, s = before ++ w ++ after ∧ matches r w None (group1 m).
Proof.
  induction s as [|c s IH]; simpl; intros H.
  - destruct (match_at r []) eqn:Hm; [|done]. injection H as ->.
    apply match_at_sound in Hm as (w & s' & Hs & Hm). by exists [], w, s'.
  - destruct (match_at r (c :: s)) eqn:Hm.
    + injection H as ->.
      apply match_at_sound in Hm as (w & s' & Hs & Hm). by exists [], w, s'.
    + destruct (IH H) as (before & w & after & -> & Hw).
      by exists (c :: before), w, after.
Qed.

Lemma search_complete r before w after g' :
  matches r w None g' → is_Some (search r (before ++ w ++ after)).
Proof.
  intros Hm. induction before as [|c before IH]; simpl.
  - destruct (match_at_complete r w after g' Hm) as [m Hs].
    destruct (w ++ after); simpl; by rewrite Hs.
  - destruct (match_at r (c :: before ++ w ++ after)); done.
Qed.

Lemma search_is_Some r s :
  is_Some (search r s) ↔
  ∃ before w after g', s = before ++ w ++ after ∧ matches r w None g'.
Proof.
  split.
  - intros [m (before & w & after & Hs & Hm)%search_sound]. eauto 10.
  - intros (before & w & after & g' & -> & Hm). by eapply search_complete.
Qed.

Lemma fullmatch_is_Some r s :
  is_Some (fullmatch r s) ↔ ∃ g', matches r s None g'.
Proof.
  split.
  - intros [m H]. apply run_sound in H as (w & s' & g' & -> & Hm & H).
    destruct s'; [|done]. rewrite app_nil_r. eauto.
  - intros [g' Hm]. rewrite <- (app_nil_r s).
    eapply run_complete; [done| |done]. by intros [|??] g1 g2.
Qed.

End SearchFacts.

(** ** The patterns of the source, read declaratively *)

Section PatternFacts.
Implicit Types (s w u v : text) (g : capture).

Lemma identifier_group_inv w g g' :
  matches (Group (Count 11 is_word_or_hyphen)) w g g' →
  g' = Some w ∧ valid_identifier w.
Proof. intros H. inv H. match goal with H : matches (Count _ _) _ _ _ |- _ => inv H end. done. Qed.

Lemma identifier_group_intro v g :
  valid_identifier v → matches (Group (Count 11 is_word_or_hyphen)) v g (Some v).
Proof.
  intros [Hlen Hv]. apply m_group with (g' := g). rewrite <- Hlen. by apply m_count.
Qed.

Lemma pattern_v_or_slash_inv w g g' :
  matches pattern_v_or_slash w g g' →
  ∃ v, (w = str "v=" ++ v ∨ w = str "/" ++ v) ∧ g' = Some v ∧ valid_identifier v.
Proof.
  intros H. inv H.
  match goal with H : matches (Group _) _ _ _ |- _ =>
    apply identifier_group_inv in H as [-> Hv] end.
  match goal with H : matches (Alt _ _) _ _ _ |- _ => inv H end;
  match goal with H : matches (Lit _) _ _ _ |- _ => inv H end; eauto.
Qed.

Lemma pattern_short_domain_inv w g g' :
  matches pattern_short_domain w g g' →
  ∃ c v, w = str "youtu" ++ [c] ++ str "be/" ++ v ∧ g' = Some v ∧ valid_identifier v.
Proof.
  intros H. inv H.
  match goal with H : matches (Group _) _ _ _ |- _ =>
    apply identifier_group_inv in H as [-> Hv] end.
  repeat match goal with
         | H : matches (Seq _ _) _ _ _ |- _ => inv H
         | H : matches (Lit _) _ _ _ |- _ => inv H
         | H : matches (Class _) _ _ _ |- _ => inv H
         end.
  eexists _, _. split; [|done]. by rewrite <- !(assoc_L (++)).
Qed.

Lemma url_pattern_inv u g g' :
  matches url_pattern u g g' → g' = g ∧ platform_url u.
Proof.
  intros H. unfold url_pattern in H.
  repeat match goal with
         | H : matches (Seq _ _) _ _ _ |- _ => inv H
         end.
  repeat match goal with
         | H : matches (Lit _) _ _ _ |- _ => inv H
         | H : matches (PlusLazy _) _ _ _ |- _ => inv H
         end.
  split.
  - repeat match goal with
           | H : matches (Opt _) _ _ _ |- _ => inv H
           | H : matches (Alt _ _) _ _ _ |- _ => inv H
           | H : matches (Lit _) _ _ _ |- _ => inv H
           end; done.
  - match goal with
    | |- platform_url (_ ++ ?a ++ _ ++ ?b ++ ?c ++ _ ++ ?rest) =>
        exists (str "http" ++ a), b, c, rest
    end.
    split; [by rewrite <- !(assoc_L (++))|].
    repeat match goal with
           | H : matches (Opt _) _ _ _ |- _ => inv H
           | H : matches (Alt _ _) _ _ _ |- _ => inv H
           | H : matches (Lit _) _ _ _ |- _ => inv H
           end; naive_solver.
Qed.

Lemma url_pattern_intro u g : platform_url u → matches url_pattern u g g.
Proof.
  intros (scheme & www & host & rest & -> & Hs & Hw & Hh & Hne & Hr).
  assert (∃ o, scheme = str "http" ++ o ∧ matches (Opt (Lit (str "s"))) o g g)
    as (o & -> & Ho).
  { destruct Hs as [-> | ->].
    - exists []. split; [done|]. apply m_opt_none.
    - exists (str "s"). split; [done|]. apply m_opt_some, m_lit. }
  rewrite <- (assoc_L (++)). unfold url_pattern.
  repeat (apply m_seq with (g1 := g); [|]); try done.
  - constructor.
  - constructor.
  - destruct Hw as [-> | ->]; [apply m_opt_none | apply m_opt_some; constructor].
  - destruct Hh as [-> | ->]; [apply m_alt_l | apply m_alt_r]; constructor.
  - constructor.
  - by apply m_plus_lazy.
Qed.

Lemma command_pattern_inv w g g' :
  matches command_pattern w g g' →
  ∃ ws u, w = trigger ++ ws ++ str "<" ++ u ++ str ">" ∧
    ws ≠ [] ∧ forallb is_space ws = true ∧ platform_url u ∧ g' = Some u.
Proof.
  intros H. unfold command_pattern in H.
  repeat match goal with
         | H : matches (Seq _ _) _ _ _ |- _ => inv H
         end.
  repeat match goal with
         | H : matches (Lit _) _ _ _ |- _ => inv H
         | H : matches (Plus _) _ _ _ |- _ => inv H
         | H : matches (Group _) _ _ _ |- _ => inv H
         end.
  match goal with H : matches url_pattern _ _ _ |- _ =>
    apply url_pattern_inv in H as [_ Hu] end.
  eexists _, _. eauto 10.
Qed.

Lemma command_pattern_intro ws u g :
  ws ≠ [] → forallb is_space ws = true → platform_url u →
  matches command_pattern (trigger ++ ws ++ str "<" ++ u ++ str ">") g (Some u).
Proof.
  intros Hne Hws Hu. unfold command_pattern.
  apply m_seq with (g1 := g); [constructor|].
  apply m_seq with (g1 := g); [by constructor|].
  apply m_seq with (g1 := g); [constructor|].
  apply m_seq with (g1 := Some u); [|constructor].
  apply m_group with (g' := g). by apply url_pattern_intro.
Qed.

End PatternFacts.

(* ================================================================== *)
(** * The extractor *)

Section Extractor.
Implicit Types (url v : text).

Lemma search_v_or_slash_Some url m :
  search pattern_v_or_slash url = Some m →
  ∃ v, group1 m = Some v ∧ valid_identifier v ∧ infix_of v url.
Proof.
  intros (before & w & after & -> & Hm)%search_sound.
  apply pattern_v_or_slash_inv in Hm as (v & Hw & Hg & Hv).
  exists v. split; [done|]. split; [done|].
  destruct Hw as [-> | ->];
    [exists (before ++ str "v="), after | exists (before ++ str "/"), after];
    by rewrite <- !(assoc_L (++)).
Qed.

Lemma search_short_domain_Some url m :
  search pattern_short_domain url = Some m →
  ∃ before c v after,
    url = before ++ str "youtu" ++ [c] ++ str "be/" ++ v ++ after ∧
    group1 m = Some v ∧ valid_identifier v.
Proof.
  intros (before & w & after & -> & Hm)%search_sound.
  apply pattern_short_domain_inv in Hm as (c & v & -> & Hg & Hv).
  exists before, c, v, after. by rewrite <- !(assoc_L (++)).
Qed.

(** A slash followed by an identifier is enough for the first rule. *)
Lemma search_v_or_slash_slash before v after :
  valid_identifier v →
  is_Some (search pattern_v_or_slash (before ++ (str "/" ++ v) ++ after)).
Proof.
  intros Hv. apply search_complete with (g' := Some v).
  apply m_seq with (g1 := None); [apply m_alt_r, m_lit|].
  by apply identifier_group_intro.
Qed.

(** Where the second rule finds something, the first one does too. *)
Lemma short_domain_implies_v_or_slash url :
  is_Some (search pattern_short_domain url) →
  is_Some (search pattern_v_or_slash url).
Proof.
  intros [m (before & c & v & after & -> & _ & Hv)%search_short_domain_Some].
  replace (before ++ str "youtu" ++ [c] ++ str "be/" ++ v ++ after)
    with ((before ++ str "youtu" ++ [c] ++ str "be") ++ (str "/" ++ v) ++ after)
    by (by rewrite <- !(assoc_L (++))).
  by apply search_v_or_slash_slash.
Qed.

Lemma extract_video_id_Some url v :
  extract_video_id url = Some v → valid_identifier v ∧ infix_of v url.
Proof.
  unfold extract_video_id, patterns. simpl.
  destruct (search pattern_v_or_slash url) as [m|] eqn:H1.
  - apply search_v_or_slash_Some in H1 as (v' & -> & Hv & Hin). by intros [= <-].
  - destruct (search pattern_short_domain url) as [m|] eqn:H2; [|done].
    apply search_short_domain_Some in H2
      as (before & c & v' & after & -> & -> & Hv).
    intros [= <-]. split; [done|].
    exists (before ++ str "youtu" ++ [c] ++ str "be/"), after.
    by rewrite <- !(assoc_L (++)).
Qed.

(** C9: for every input string the extractor answers either with no match
    or with an identifier that is non-empty and is made of exactly eleven
    characters of the class [[\w-]], taken from the input; being a total
    function of its argument alone, it has no other way to end. *)
Theorem extract_video_id_identifier_or_none url :
  extract_video_id url = None ∨
  ∃ v, extract_video_id url = Some v ∧ v ≠ [] ∧ length v = 11%nat ∧
       forallb is_word_or_hyphen v = true ∧ infix_of v url.
Proof.
  destruct (extract_video_id url) as [v|] eqn:H; [|by left].
  apply extract_video_id_Some in H as [[Hlen Hv] Hin].
  right. exists v. repeat split; try done. by destruct v.
Qed.

(** C10: the second rule never decides: on every input the extractor
    answers what the variant with the first rule alone answers. *)
Theorem extract_video_id_second_rule_redundant url :
  extract_video_id url = extract_video_id_first_rule_only url.
Proof.
  unfold extract_video_id, extract_video_id_first_rule_only, patterns. simpl.
  destruct (search pattern_v_or_slash url) as [m|] eqn:H1; [done|].
  destruct (search pattern_short_domain url) as [m|] eqn:H2; [|done].
  destruct (short_domain_implies_v_or_slash url) as [m' Hm']; [by rewrite H2|].
  congruence.
Qed.

End Extractor.

(* ================================================================== *)
(** * Which messages are commands *)

Section Recognition.
Implicit Types (message : text).

Lemma contains_command_search message :
  is_Some (search command_pattern message) ↔ contains_command message.
Proof.
  rewrite search_is_Some. split.
  - intros (before & w & after & g' & -> & Hm).
    apply command_pattern_inv in Hm as (ws & u & -> & Hne & Hws & Hu & _).
    exists before, ws, u, after. by rewrite <- !(assoc_L (++)).
  - intros (before & ws & u & after & -> & Hne & Hws & Hu).
    exists before, (trigger ++ ws ++ str "<" ++ u ++ str ">"), after, (Some u).
    split; [by rewrite <- !(assoc_L (++))|]. by apply command_pattern_intro.
Qed.

Lemma anchored_command_fullmatch message :
  anchored_command message ↔ is_Some (fullmatch command_pattern message).
Proof.
  rewrite fullmatch_is_Some. split.
  - intros (ws & u & -> & Hne & Hws & Hu). exists (Some u).
    by apply command_pattern_intro.
  - intros [g' Hm]. apply command_pattern_inv in Hm as (ws & u & -> & ? & ? & ? & _).
    by exists ws, u.
Qed.

Lemma has_trigger_startswith message :
  has_trigger message = startswith trigger message.
Proof. by destruct message. Qed.

Lemma is_command_spec message :
  is_command message = true ↔
  startswith trigger message = true ∧ contains_command message.
Proof.
  unfold is_command. rewrite andb_true_iff, has_trigger_startswith.
  by rewrite bool_decide_eq_true, contains_command_search.
Qed.

End Recognition.

(* ================================================================== *)
(** * Facts about the run directory *)

Section WorkspaceFacts.
Implicit Types (a b v cwd dir : text) (d : datetime) (n : Z).

Lemma code_digit n : code (digit n) = 48 + n mod 10.
Proof.
  unfold code, digit. rewrite N_ascii_embedding.
  - rewrite Z2N.id; [done|]. pose proof (Z.mod_pos_bound n 10). lia.
  - pose proof (Z.mod_pos_bound n 10). lia.
Qed.

Lemma digit_inj n m : digit n = digit m → n mod 10 = m mod 10.
Proof.
  intros H. apply (f_equal code) in H. rewrite !code_digit in H. lia.
Qed.

Lemma digit_not_slash n : digit n ≠ "/"%char.
Proof.
  intros H. apply (f_equal code) in H. rewrite code_digit in H.
  pose proof (Z.mod_pos_bound n 10). change (code "/") with 47 in H. lia.
Qed.

Lemma pad2_inj n m : 0 <= n < 100 → 0 <= m < 100 → pad2 n = pad2 m → n = m.
Proof.
  intros Hn Hm [= H1%digit_inj H2%digit_inj].
  Z.div_mod_to_equations. lia.
Qed.

Lemma pad4_inj n m :
  0 <= n < 10000 → 0 <= m < 10000 → pad4 n = pad4 m → n = m.
Proof.
  intros Hn Hm [= H1%digit_inj H2%digit_inj H3%digit_inj H4%digit_inj].
  Z.div_mod_to_equations. lia.
Qed.

(** Two valid dates with the same stamp agree on every field down to the
    second. *)
Lemma strftime_inj d1 d2 :
  valid_datetime d1 → valid_datetime d2 → strftime d1 = strftime d2 →
  year d1 = year d2 ∧ month d1 = month d2 ∧ day d1 = day d2 ∧
  hour d1 = hour d2 ∧ minute d1 = minute d2 ∧ second d1 = second d2.
Proof.
  intros (?&?&?&?&?&?&?) (?&?&?&?&?&?&?). unfold strftime. intros E.
  apply app_inj_1 in E as [Hy E]; [|done].
  apply app_inj_1 in E as [Hm E]; [|done].
  apply app_inj_1 in E as [Hd E]; [|done].
  apply app_inj_1 in E as [_ E]; [|done].
  apply app_inj_1 in E as [Hh E]; [|done].
  apply app_inj_1 in E as [Hmi Hs]; [|done].
  apply pad4_inj in Hy; [|lia..].
  apply pad2_inj in Hm, Hd, Hh, Hmi, Hs; try lia.
Qed.

Lemma strftime_last d : ∃ t, strftime d = t ++ [digit (second d)].
Proof.
  unfold strftime, pad2.
  exists (pad4 (year d) ++ pad2 (month d) ++ pad2 (day d) ++ str "_"
          ++ pad2 (hour d) ++ pad2 (minute d) ++ [digit (second d / 10)]).
  by rewrite <- !(assoc_L (++)).
Qed.

Lemma word_or_hyphen_not_slash (c : ascii) :
  is_word_or_hyphen c = true → c ≠ "/"%char.
Proof. intros H ->. by vm_compute in H. Qed.

Lemma identifier_not_absolute v b :
  valid_identifier v → startswith (str "/") (v ++ b) = false.
Proof.
  intros [Hlen Hv]. destruct v as [|c v]; [done|]. simpl in *.
  apply andb_true_iff in Hv as [Hc%word_or_hyphen_not_slash _].
  unfold str. simpl. rewrite andb_true_r. apply bool_decide_eq_false. congruence.
Qed.

Lemma path_join_relative a b :
  a ≠ [] → last a ≠ Some "/"%char → startswith (str "/") b = false →
  path_join a b = a ++ str "/" ++ b.
Proof.
  intros Ha Hl Hb. unfold path_join. rewrite Hb.
  destruct a; [done|]. simpl. by rewrite bool_decide_eq_false_2.
Qed.

Lemma WORK_DIR_shape cwd : ∃ t, WORK_DIR cwd = t ++ str "s".
Proof.
  unfold WORK_DIR, path_join.
  change (str "youtube_transcripts") with (str "youtube_transcript" ++ str "s").
  change (startswith _ _) with false. cbv iota.
  destruct (_ || _); eexists; by rewrite ?(assoc_L (++)).
Qed.

(** [run_dir] is the base directory, a separator, and the identifier with
    the stamp. *)
Lemma run_dir_eq cwd v d :
  valid_identifier v →
  run_dir cwd v d = WORK_DIR cwd ++ str "/" ++ v ++ str "_" ++ strftime d.
Proof.
  intros Hv. unfold run_dir. destruct (WORK_DIR_shape cwd) as [t Ht].
  apply path_join_relative.
  - rewrite Ht. by destruct t.
  - rewrite Ht. change (str "s") with ["s"%char]. by rewrite last_snoc.
  - by apply identifier_not_absolute.
Qed.

Lemma run_dir_file cwd v d b :
  valid_identifier v →
  path_join (run_dir cwd v d) (v ++ b) = run_dir cwd v d ++ str "/" ++ v ++ b.
Proof.
  intros Hv. apply path_join_relative.
  - rewrite run_dir_eq by done. destruct (WORK_DIR_shape cwd) as [t ->]. by destruct t.
  - rewrite run_dir_eq by done. destruct (strftime_last d) as [t ->].
    rewrite !(assoc_L (++)), last_snoc. intros [= H]. by apply digit_not_slash in H.
  - by apply identifier_not_absolute.
Qed.

(** The stage-2 artifact lies directly inside the run directory. *)
Lemma wisdom_path_eq cwd v d :
  valid_identifier v →
  wisdom_path (run_dir cwd v d) v
  = run_dir cwd v d ++ str "/" ++ v ++ str "_wisdom.txt".
Proof. intros Hv. by apply run_dir_file. Qed.

Lemma same_second_close d1 d2 :
  valid_datetime d1 → valid_datetime d2 →
  year d1 = year d2 → month d1 = month d2 → day d1 = day d2 →
  hour d1 = hour d2 → minute d1 = minute d2 → second d1 = second d2 →
  Z.abs (microseconds d1 - microseconds d2) < 1000000.
Proof.
  intros (?&?&?&?&?&?&?) (?&?&?&?&?&?&?) Hy Hm Hd Hh Hmi Hs.
  unfold microseconds, toordinal. rewrite Hy, Hm, Hd, Hh, Hmi, Hs. lia.
Qed.

(** C8: the run directory is the base directory joined with the identifier
    and the stamp of the allocation, to the second; two allocations whose
    times lie at least one second apart get different directories, whether
    the identifiers are the same or not. *)
Theorem run_dir_distinct_after_a_second cwd v1 v2 d1 d2 :
  valid_identifier v1 → valid_identifier v2 →
  valid_datetime d1 → valid_datetime d2 →
  1000000 <= Z.abs (microseconds d1 - microseconds d2) →
  run_dir cwd v1 d1 = WORK_DIR cwd ++ str "/" ++ v1 ++ str "_" ++ strftime d1 ∧
  run_dir cwd v2 d2 = WORK_DIR cwd ++ str "/" ++ v2 ++ str "_" ++ strftime d2 ∧
  run_dir cwd v1 d1 ≠ run_dir cwd v2 d2.
Proof.
  intros Hv1 Hv2 Hd1 Hd2 Hfar.
  rewrite !run_dir_eq by done. do 2 (split; [done|]). intros H.
  apply app_inv_head, app_inv_head in H.
  apply app_inj_1 in H as [_ H]; [|destruct Hv1, Hv2; congruence].
  apply app_inv_head in H.
  apply strftime_inj in H as (Ey & Em & Ed & Eh & Emi & Es); [|done..].
  pose proof (same_second_close d1 d2 Hd1 Hd2 Ey Em Ed Eh Emi Es). lia.
Qed.

End WorkspaceFacts.

(* ================================================================== *)
(** * The pipeline *)

#[local] Arguments str : simpl never.

Section Pipeline.
Implicit Types (w : world) (url : text) (σ : files).

Lemma extract_video_id_truthy url v :
  extract_video_id url = Some v → truthy v = true.
Proof. intros [[Hlen _] _]%extract_video_id_Some. by destruct v. Qed.

Lemma failure_text_names_command w rc cmd :
  infix_of (command_str w cmd)
    (str "Error processing video: " ++ exn_str w (CalledProcessError rc cmd)).
Proof.
  unfold exn_str. exists (str "Error processing video: " ++ str "Command '").
  destruct (rc <? 0); [destruct (repr_signal w (- rc))|];
    eexists; rewrite <- !(assoc_L (++)); reflexivity.
Qed.

Lemma failure_text_shape w rc cmd :
  ∃ rest,
    str "Error processing video: " ++ exn_str w (CalledProcessError rc cmd)
    = str "Error processing video: "
      ++ (str "Command '" ++ command_str w cmd ++ str "'") ++ rest.
Proof.
  unfold exn_str.
  destruct (rc <? 0); [destruct (repr_signal w (- rc))|];
    eexists; rewrite <- !(assoc_L (++)); reflexivity.
Qed.

Lemma transcript_failure_names_tool w url rc :
  infix_of
    (str "Command '[" ++ repr_str w (str "yt") ++ str ", "
     ++ repr_str w (str "--transcript") ++ str ", " ++ repr_str w url
     ++ str "]'")
    (str "Error processing video: "
     ++ exn_str w (CalledProcessError rc (transcript_command url))).
Proof.
  destruct (failure_text_shape w rc (transcript_command url)) as [rest ->].
  exists (str "Error processing video: "), rest. do 2 f_equal.
  unfold command_str, transcript_command. simpl.
  rewrite <- !(assoc_L (++)). simpl. rewrite <- ?(assoc_L (++)). simpl.
  by repeat f_equal.
Qed.

(** C1: when the process of the transcript stage exits with a non-zero
    status, the run hands back the failure text that carries the command
    line of the transcript tool and its status, and no line is ever given
    to the shell: the summarizer is not started.  The text holds the list
    of the three arguments as Python prints it, the [repr] of ["yt"], of
    ["--transcript"] and of the URL; with [repr] doing to plain texts what
    Python's does, it reads [Command '['yt', '--transcript', ...]. *)
Theorem transcript_failure_ends_the_run w url σ rc out err :
  ERun (transcript_command url) (Exited rc out err)
    ∈ events_of (process_youtube_url w url) σ →
  rc ≠ 0 →
  let failure :=
    str "Error processing video: "
    ++ exn_str w (CalledProcessError rc (transcript_command url)) in
  outcome_of (process_youtube_url w url) σ = Return failure ∧
  infix_of (command_str w (transcript_command url)) failure ∧
  Forall (λ e, is_summarizer_run e = false)
    (events_of (process_youtube_url w url) σ) ∧
  infix_of
    (str "Command '[" ++ repr_str w (str "yt") ++ str ", "
     ++ repr_str w (str "--transcript") ++ str ", " ++ repr_str w url
     ++ str "]'")
    failure ∧
  (repr_plain w →
   infix_of (str "Command '['yt', '--transcript', " ++ repr_str w url ++ str "]'")
     failure).
Proof.
  intros H Hrc failure.
  assert (outcome_of (process_youtube_url w url) σ = Return failure ∧
          Forall (λ e, is_summarizer_run e = false)
            (events_of (process_youtube_url w url) σ)) as [Hout Hsum].
  { split; revert H; unfold_run;
      (destruct (extract_video_id url) as [v|]; [|by intros ?%elem_of_nil]);
      (destruct (truthy v); [|by intros ?%elem_of_nil]);
      split_world; rewrite ?elem_of_cons, ?elem_of_nil;
      intros H; repeat constructor; naive_solver. }
  split; [done|]. split; [apply failure_text_names_command|].
  split; [done|]. split; [apply transcript_failure_names_tool|].
  intros Hrepr. pose proof (transcript_failure_names_tool w url rc) as Hin.
  rewrite (Hrepr (str "yt")), (Hrepr (str "--transcript")) in Hin by done.
  revert Hin. by rewrite <- !(assoc_L (++)).
Qed.

(** C2: whatever the outside world answers, the run ends by returning a
    text, never by raising; and as soon as one of its external calls went
    wrong (a fault while creating the directory or writing a file, a tool
    that could not be run, a non-zero exit status) that text is one of the
    two failure texts. *)
Theorem process_youtube_url_always_returns w url σ :
  ∃ s, outcome_of (process_youtube_url w url) σ = Return s ∧
       (existsb went_wrong (events_of (process_youtube_url w url) σ) = true →
        is_failure_text s).
Proof.
  unfold_run. unfold is_failure_text.
  destruct (extract_video_id url) as [v|]; [|by eexists].
  destruct (truthy v); [|by eexists].
  split_world; eexists; (split; [reflexivity|]);
    rewrite ?orb_false_r; try (by eauto); subst; simpl; try done.
Qed.



End Pipeline.

(* ================================================================== *)
(** * The dispatcher *)

Section Dispatcher.
Implicit Types (w : world) (message channel url : text) (σ : files).

Lemma contains_bracketed_url_search message :
  contains_bracketed_url message ↔
  is_Some (search bracketed_url_pattern message).
Proof.
  rewrite search_is_Some. split.
  - intros (before & u & after & -> & Hu).
    exists before, (str "<" ++ u ++ str ">"), after, None.
    split; [by rewrite <- !(assoc_L (++))|].
    apply m_seq with (g1 := None); [apply m_lit|].
    apply m_seq with (g1 := None); [by apply url_pattern_intro | apply m_lit].
  - intros (before & x & after & g' & -> & Hm). unfold bracketed_url_pattern in Hm.
    repeat match goal with
           | H : matches (Seq _ _) _ _ _ |- _ => inv H
           end.
    repeat match goal with
           | H : matches (Lit _) _ _ _ |- _ => inv H
           end.
    match goal with H : matches url_pattern ?u _ _ |- _ =>
      apply url_pattern_inv in H as [_ Hu]; exists before, u, after end.
    by rewrite <- !(assoc_L (++)).
Qed.

Lemma contains_command_bracketed message :
  contains_command message → contains_bracketed_url message.
Proof.
  intros (before & ws & u & after & -> & _ & _ & Hu).
  exists (before ++ trigger ++ ws), u, after. by rewrite <- !(assoc_L (++)).
Qed.

(** The pipeline always hands a text back to the dispatcher, and posts
    nothing itself. *)
Lemma process_youtube_url_total w url σ :
  ∃ s σ' t, process_youtube_url w url σ = (Return s, σ', t) ∧
            Forall (λ e, is_post e = false) t.
Proof.
  unfold_run.
  destruct (extract_video_id url) as [v|]; [|by eexists _, _, _].
  destruct (truthy v); [|by eexists _, _, _].
  split_world; eexists _, _, _; (split; [reflexivity|]); by repeat constructor.
Qed.

Lemma posted_texts_no_posts (t : list event) :
  Forall (λ e, is_post e = false) t → posted_texts t = [].
Proof.
  induction 1 as [|e t He _ IH]; [done|].
  by destruct e.
Qed.

Lemma posted_texts_app (t1 t2 : list event) :
  posted_texts (t1 ++ t2) = posted_texts t1 ++ posted_texts t2.
Proof. apply omap_app. Qed.

Lemma only_post_is_last (t : list event) e0 i e :
  Forall (λ e, is_post e = false) t →
  (t ++ [e0]) !! i = Some e → is_post e = true →
  length (t ++ [e0]) = S i ∧ e = e0.
Proof.
  intros Ht Hi He. apply lookup_app_Some in Hi as [Hi | [Hlen Hi]].
  - rewrite Forall_lookup in Ht. apply Ht in Hi. congruence.
  - apply list_lookup_singleton_Some in Hi as [Hi ->].
    rewrite length_app. simpl. split; [lia|done].
Qed.

Lemma usage_is_not_ack : usage_text ≠ ack_text.
Proof. intros H. by vm_compute in H. Qed.

Lemma usage_is_not_a_result (r : text) : usage_text ≠ result_text r.
Proof. intros H. apply (f_equal head) in H. by vm_compute in H. Qed.

(** The events of an accepted message: the acknowledgment, then, when it
    went through, whatever the pipeline did and the result message. *)
Lemma accepted_events w message channel σ m url :
  has_trigger message = true →
  search command_pattern message = Some m → group1 m = Some url →
  ∃ s t, outcome_of (process_youtube_url w url) σ = Return s ∧
    events_of (process_youtube_url w url) σ = t ∧
    Forall (λ e, is_post e = false) t ∧
    events_of (process_message_text w message channel) σ =
      EPost channel ack_text (post_message w channel ack_text) ::
      match post_message w channel ack_text with
      | Done =>
          t ++ [EPost channel (result_text s)
                  (post_message w channel (result_text s))]
      | Fault _ => []
      end.
Proof.
  intros Ht Hm Hg.
  destruct (process_youtube_url_total w url σ) as (s & σ' & t & Hrun & Hposts).
  exists s, t. unfold outcome_of, events_of, process_message_text.
  rewrite Ht, Hm, Hg. unfold mbind, M_bind, chat_postMessage.
  rewrite Hrun. simpl.
  destruct (post_message w channel ack_text); [|done].
  simpl. rewrite Hrun.
  by destruct (post_message w channel (result_text s)).
Qed.

Lemma command_is_acknowledged w message channel σ :
  is_command message = true → acknowledged w message channel σ.
Proof.
  unfold is_command. intros [Ht Hs%bool_decide_eq_true]%andb_true_iff.
  destruct Hs as [m Hm]. destruct (group1 m) as [url|] eqn:Hg.
  - destruct (accepted_events w message channel σ m url Ht Hm Hg)
      as (s & t & _ & _ & _ & H).
    eexists _, _. exact H.
  - unfold acknowledged, events_of, process_message_text.
    rewrite Ht, Hm, Hg. unfold mbind, M_bind, chat_postMessage, raise.
    destruct (post_message w channel ack_text); simpl; by eexists _, _.
Qed.

Lemma acknowledged_is_command w message channel σ :
  acknowledged w message channel σ → is_command message = true.
Proof.
  unfold acknowledged, is_command, events_of, process_message_text.
  intros (o & rest & H). destruct (has_trigger message); [|done].
  destruct (search command_pattern message) as [m|]; [done|].
  revert H. unfold chat_postMessage.
  destruct (post_message w channel usage_text); simpl; intros [= H _ _];
    by apply usage_is_not_ack in H.
Qed.

(** C7, as the code has it: a message is treated as a command (the run
    opens with the acknowledgment) exactly when its text starts with the
    command word and holds, at some position, the command word, white
    space, and a URL of the platform between angle brackets; text after
    the closing bracket does not stand in the way. *)
Theorem command_iff_pattern_found w message channel σ :
  acknowledged w message channel σ ↔
  startswith trigger message = true ∧ contains_command message.
Proof.
  rewrite <- is_command_spec. split.
  - apply acknowledged_is_command.
  - apply command_is_acknowledged.
Qed.

(** C7 as stated fails: this message carries text after the closing
    bracket, is not the anchored command, and is treated as a command all
    the same. *)
Lemma trailing_text_still_a_command :
  let message := str "extract_wisdom <https://youtu.be/dQw4w9WgXcQ> please" in
  acknowledged (sample_world 0 0) message sample_channel ∅ ∧
  ¬ anchored_command message.
Proof.
  split.
  - eexists _, _. vm_compute. reflexivity.
  - rewrite anchored_command_fullmatch. vm_compute. by intros [? ?].
Qed.

(** C4: a message that does not start with the command word causes no
    call at all, so nothing is posted; a message that starts with it but
    holds no platform URL between angle brackets causes exactly one call,
    the posting of the usage hint. *)
Theorem silent_unless_malformed w message channel σ :
  (startswith trigger message = false →
   events_of (process_message_text w message channel) σ = []) ∧
  (startswith trigger message = true → ¬ contains_bracketed_url message →
   events_of (process_message_text w message channel) σ
   = [EPost channel usage_text (post_message w channel usage_text)]).
Proof.
  unfold events_of, process_message_text. rewrite has_trigger_startswith.
  split; intros Ht; rewrite Ht; [done|]. intros Hno.
  destruct (search command_pattern message) as [m|] eqn:Hm.
  - destruct Hno. apply contains_command_bracketed, contains_command_search.
    by rewrite Hm.
  - unfold chat_postMessage. by destruct (post_message w channel usage_text).
Qed.

Lemma silent_unless_malformed_witness :
  events_of (process_message_text (sample_world 0 0)
               (str "good morning") sample_channel) ∅ = [] ∧
  events_of (process_message_text (sample_world 0 0)
               (str "extract_wisdom https://youtu.be/dQw4w9WgXcQ") sample_channel) ∅
  = [EPost sample_channel usage_text Done].
Proof.
  split.
  - apply (proj1 (silent_unless_malformed (sample_world 0 0)
                    (str "good morning") sample_channel ∅)).
    reflexivity.
  - apply (proj2 (silent_unless_malformed (sample_world 0 0)
                    (str "extract_wisdom https://youtu.be/dQw4w9WgXcQ")
                    sample_channel ∅)).
    + reflexivity.
    + rewrite contains_bracketed_url_search. vm_compute. by intros [? ?].
Defined.

(** C5, as the code has it: when the command word and the bracketed URL
    match but no identifier can be taken from the URL, the message is
    accepted all the same: the acknowledgment is posted, then, with no
    directory made and no tool run in between, the text "Invalid YouTube
    URL format" inside the regular result message; the usage hint is not
    posted. *)
Theorem no_identifier_is_reported_as_result w message channel σ m url :
  has_trigger message = true →
  search command_pattern message = Some m → group1 m = Some url →
  extract_video_id url = None →
  events_of (process_message_text w message channel) σ =
    EPost channel ack_text (post_message w channel ack_text) ::
    match post_message w channel ack_text with
    | Done =>
        [EPost channel (result_text (str "Invalid YouTube URL format"))
           (post_message w channel (result_text (str "Invalid YouTube URL format")))]
    | Fault _ => []
    end ∧
  usage_text ∉ posted_texts (events_of (process_message_text w message channel) σ).
Proof.
  intros Ht Hm Hg Hv.
  destruct (accepted_events w message channel σ m url Ht Hm Hg)
    as (s & t & Hs & Hev & _ & ->).
  revert Hs Hev. unfold outcome_of, events_of, process_youtube_url.
  rewrite Hv. simpl. intros [= <-] <-.
  split; [done|].
  destruct (post_message w channel ack_text); simpl;
    rewrite ?elem_of_cons, elem_of_nil;
    pose proof usage_is_not_ack; pose proof (usage_is_not_a_result (str "Invalid YouTube URL format"));
    tauto.
Qed.

Lemma no_identifier_is_reported_as_result_witness :
  events_of (process_message_text (sample_world 0 0)
               (str "extract_wisdom <https://youtu.be/abc>") sample_channel) ∅ =
    [EPost sample_channel ack_text Done;
     EPost sample_channel (result_text (str "Invalid YouTube URL format")) Done] ∧
  usage_text ∉ posted_texts
    (events_of (process_message_text (sample_world 0 0)
                  (str "extract_wisdom <https://youtu.be/abc>") sample_channel) ∅).
Proof.
  apply (no_identifier_is_reported_as_result (sample_world 0 0)
           (str "extract_wisdom <https://youtu.be/abc>") sample_channel ∅
           {| group1 := Some (str "https://youtu.be/abc") |}
           (str "https://youtu.be/abc")); reflexivity.
Defined.

(** C5 as stated fails: for this message the command word and the
    bracketed URL match and no identifier can be taken from the URL, yet
    what is posted is the acknowledgment and a result message, and the
    usage hint is not among the posted texts. *)
Lemma no_identifier_gets_no_usage_hint :
  let message := str "extract_wisdom <https://youtu.be/abc>" in
  is_command message = true ∧
  search command_pattern message
    = Some {| group1 := Some (str "https://youtu.be/abc") |} ∧
  extract_video_id (str "https://youtu.be/abc") = None ∧
  posted_texts (events_of (process_message_text (sample_world 0 0)
                             message sample_channel) ∅)
    = [ack_text; result_text (str "Invalid YouTube URL format")] ∧
  posted_texts (events_of (process_message_text (sample_world 0 0)
                             message sample_channel) ∅)
    ≠ [usage_text].
Proof. repeat split; by vm_compute. Qed.

(** C6: for an accepted command the first call of all is the posting of
    the acknowledgment, so it comes before anything the pipeline does; at
    most two messages are posted; and a later posting can only be the last
    call of the run, the result message. *)
Theorem acknowledgment_first_at_most_two w message channel σ :
  is_command message = true →
  ∃ o rest,
    events_of (process_message_text w message channel) σ
      = EPost channel ack_text o :: rest ∧
    (length (posted_texts (events_of (process_message_text w message channel) σ))
       ≤ 2)%nat ∧
    ∀ i e, rest !! i = Some e → is_post e = true →
      length rest = S i ∧
      ∃ result o', e = EPost channel (result_text result) o'.
Proof.
  unfold is_command. intros [Ht Hs%bool_decide_eq_true]%andb_true_iff.
  destruct Hs as [m Hm].
  destruct (group1 m) as [url|] eqn:Hg.
  - destruct (accepted_events w message channel σ m url Ht Hm Hg)
      as (s & t & _ & _ & Hposts & ->).
    eexists _, _. split; [reflexivity|].
    destruct (post_message w channel ack_text).
    + split.
      * change (?x :: ?l) with ([x] ++ l).
        rewrite !posted_texts_app, (posted_texts_no_posts t) by done. simpl. lia.
      * intros i e Hi He.
        destruct (only_post_is_last _ _ _ _ Hposts Hi He) as [? ->]. eauto.
    + split; [simpl; lia|]. intros i e Hi; by rewrite lookup_nil in Hi.
  - unfold events_of, process_message_text.
    rewrite Ht, Hm, Hg. unfold mbind, M_bind, chat_postMessage, raise.
    destruct (post_message w channel ack_text); simpl;
      (eexists _, _; split; [reflexivity|]; split; [simpl; lia|]);
      intros i e Hi; by rewrite lookup_nil in Hi.
Qed.

Lemma acknowledgment_first_at_most_two_witness :
  ∃ o rest,
    events_of (process_message_text (sample_world 0 0)
                 (str "extract_wisdom <https://youtu.be/dQw4w9WgXcQ>")
                 sample_channel) ∅
      = EPost sample_channel ack_text o :: rest ∧
    (length (posted_texts (events_of (process_message_text (sample_world 0 0)
                 (str "extract_wisdom <https://youtu.be/dQw4w9WgXcQ>")
                 sample_channel) ∅)) ≤ 2)%nat ∧
    ∀ i e, rest !! i = Some e → is_post e = true →
      length rest = S i ∧
      ∃ result o', e = EPost sample_channel (result_text result) o'.
Proof.
  apply (acknowledgment_first_at_most_two (sample_world 0 0)
           (str "extract_wisdom <https://youtu.be/dQw4w9WgXcQ>")
           sample_channel ∅).
  vm_compute. reflexivity.
Defined.

End Dispatcher.

(* ================================================================== *)
(** * The statements at the sample data *)

Section Samples.

Example extract_watch_form :
  extract_video_id (str "https://youtube.com/watch?v=dQw4w9WgXcQ&t=42")
  = Some sample_id.
Proof. by vm_compute. Qed.

Example extract_short_form : extract_video_id sample_url = Some sample_id.
Proof. by vm_compute. Qed.

Example extract_too_short : extract_video_id (str "https://youtu.be/abc") = None.
Proof. by vm_compute. Qed.

Example strftime_noon : strftime noon = str "20240301_120000".
Proof. by vm_compute. Qed.

Example run_dir_noon :
  run_dir (str "/srv/bot") sample_id noon
  = str "/srv/bot/youtube_transcripts/dQw4w9WgXcQ_20240301_120000".
Proof. by vm_compute. Qed.

Example strip_sample :
  strip (str "  IDEAS: persistence. " ++ nl) = str "IDEAS: persistence.".
Proof. by vm_compute. Qed.

(** The end-to-end scenario: two messages, the hold message and the block
    with the trimmed output of the summarizer. *)
Example end_to_end :
  posted_texts
    (events_of (process_message_text (sample_world 0 0)
                  (str "extract_wisdom <https://youtube.com/watch?v=dQw4w9WgXcQ>")
                  sample_channel) ∅)
  = [ack_text; result_text (str "IDEAS: persistence.")].
Proof. by vm_compute. Qed.

Lemma transcript_failure_ends_the_run_witness :
  let failure :=
    str "Error processing video: "
    ++ exn_str (sample_world 1 0)
         (CalledProcessError 1 (transcript_command sample_url)) in
  outcome_of (process_youtube_url (sample_world 1 0) sample_url) ∅
    = Return failure ∧
  infix_of (command_str (sample_world 1 0) (transcript_command sample_url))
    failure ∧
  Forall (λ e, is_summarizer_run e = false)
    (events_of (process_youtube_url (sample_world 1 0) sample_url) ∅) ∧
  infix_of
    (str "Command '['yt', '--transcript', 'https://youtu.be/dQw4w9WgXcQ']'")
    failure.
Proof.
  intros failure.
  destruct (transcript_failure_ends_the_run (sample_world 1 0) sample_url ∅
              1 (str "never gonna give you up") [])
    as (Hout & Hcmd & Hsum & _ & Hname).
  - apply list_elem_of_In. vm_compute. auto 10.
  - lia.
  - split; [exact Hout|]. split; [exact Hcmd|]. split; [exact Hsum|].
    apply Hname. intros s _. reflexivity.
Defined.


Lemma run_dir_distinct_after_a_second_witness :
  run_dir (str "/srv/bot") sample_id noon
    = WORK_DIR (str "/srv/bot") ++ str "/" ++ sample_id ++ str "_" ++ strftime noon ∧
  run_dir (str "/srv/bot") sample_id a_second_past_noon
    = WORK_DIR (str "/srv/bot") ++ str "/" ++ sample_id ++ str "_"
      ++ strftime a_second_past_noon ∧
  run_dir (str "/srv/bot") sample_id noon
    ≠ run_dir (str "/srv/bot") sample_id a_second_past_noon.
Proof.
  apply (run_dir_distinct_after_a_second (str "/srv/bot") sample_id sample_id
           noon a_second_past_noon).
  - split; reflexivity.
  - split; reflexivity.
  - unfold valid_datetime, noon; simpl; lia.
  - unfold valid_datetime, a_second_past_noon; simpl; lia.
  - vm_compute. discriminate.
Defined.

End Samples.

(* ================================================================== *)
(** * More about the run directory *)

Section WorkspaceMore.
Implicit Types (v cwd : text) (d : datetime) (n : Z).

Lemma digit_is_word n : is_word_or_hyphen (digit n) = true.
Proof.
  unfold digit. pose proof (Z.mod_pos_bound n 10).
  assert (n mod 10 = 0 ∨ n mod 10 = 1 ∨ n mod 10 = 2 ∨ n mod 10 = 3 ∨
          n mod 10 = 4 ∨ n mod 10 = 5 ∨ n mod 10 = 6 ∨ n mod 10 = 7 ∨
          n mod 10 = 8 ∨ n mod 10 = 9) as Hcases by lia.
  decompose [or] Hcases; match goal with H : _ mod 10 = _ |- _ => rewrite H end;
    reflexivity.
Qed.

Lemma transcript_path_eq cwd v d :
  valid_identifier v →
  transcript_path (run_dir cwd v d) v
  = run_dir cwd v d ++ str "/" ++ v ++ str ".txt".
Proof. intros Hv. by apply run_dir_file. Qed.

Lemma artifacts_differ cwd v d :
  valid_identifier v →
  transcript_path (run_dir cwd v d) v ≠ wisdom_path (run_dir cwd v d) v.
Proof.
  intros Hv. rewrite transcript_path_eq, wisdom_path_eq by done. intros H.
  by apply app_inv_head, app_inv_head, app_inv_head in H.
Qed.

(** X1: the two artifacts of a run are different files, both directly
    inside the run directory. *)
Theorem artifacts_inside_run_dir cwd v d :
  valid_identifier v →
  transcript_path (run_dir cwd v d) v
    = run_dir cwd v d ++ str "/" ++ v ++ str ".txt" ∧
  wisdom_path (run_dir cwd v d) v
    = run_dir cwd v d ++ str "/" ++ v ++ str "_wisdom.txt" ∧
  transcript_path (run_dir cwd v d) v ≠ wisdom_path (run_dir cwd v d) v.
Proof.
  intros Hv. split; [by apply transcript_path_eq|].
  split; [by apply wisdom_path_eq | by apply artifacts_differ].
Qed.

Lemma artifacts_inside_run_dir_witness :
  transcript_path (run_dir (str "/srv/bot") sample_id noon) sample_id
    = run_dir (str "/srv/bot") sample_id noon ++ str "/" ++ sample_id ++ str ".txt" ∧
  wisdom_path (run_dir (str "/srv/bot") sample_id noon) sample_id
    = run_dir (str "/srv/bot") sample_id noon ++ str "/" ++ sample_id
      ++ str "_wisdom.txt" ∧
  transcript_path (run_dir (str "/srv/bot") sample_id noon) sample_id
    ≠ wisdom_path (run_dir (str "/srv/bot") sample_id noon) sample_id.
Proof.
  apply (artifacts_inside_run_dir (str "/srv/bot") sample_id noon).
  split; reflexivity.
Defined.

(** X2: whatever the clock says, the name of the run directory is made of
    27 characters of the class [[\w-]]: the identifier, an underscore and
    a stamp of fifteen characters; it holds no separator and no white
    space. *)
Theorem run_dir_name_is_plain v d :
  valid_identifier v →
  length (v ++ str "_" ++ strftime d) = 27%nat ∧
  forallb is_word_or_hyphen (v ++ str "_" ++ strftime d) = true.
Proof.
  intros [Hlen Hv]. split.
  - rewrite length_app, Hlen. reflexivity.
  - rewrite forallb_app, Hv. unfold strftime, pad4, pad2. simpl.
    by rewrite !digit_is_word.
Qed.

Lemma run_dir_name_is_plain_witness :
  length (sample_id ++ str "_" ++ strftime noon) = 27%nat ∧
  forallb is_word_or_hyphen (sample_id ++ str "_" ++ strftime noon) = true.
Proof. apply (run_dir_name_is_plain sample_id noon). split; reflexivity. Defined.

End WorkspaceMore.

(* ================================================================== *)
(** * More about the pipeline *)

Section PipelineMore.
Implicit Types (w : world) (url path : text) (σ : files).

(** The first steps of every proof below: name the identifier, or close
    the case in which the run makes no call at all. *)
Ltac with_identifier v Hv :=
  match goal with
  | |- context [process_youtube_url ?w ?url] =>
      destruct (extract_video_id url) as [v|] eqn:Hv;
      [pose proof (extract_video_id_truthy _ _ Hv);
       pose proof (proj1 (extract_video_id_Some _ _ Hv))
      |unfold_run; rewrite Hv; simpl; rewrite ?elem_of_nil; try done]
  end.

(** X3: when the run directory cannot be created, that call is the only
    one the run makes: it returns "Unexpected error: " followed by the
    message of the fault, starts no tool and leaves every file as it was. *)
Theorem makedirs_fault_ends_the_run w url σ path msg :
  EMakedirs path (Fault msg) ∈ events_of (process_youtube_url w url) σ →
  process_youtube_url w url σ
  = (Return (str "Unexpected error: " ++ msg), σ, [EMakedirs path (Fault msg)]).
Proof.
  with_identifier v Hv. unfold_run. rewrite Hv, H.
  split_world; rewrite ?elem_of_cons, ?elem_of_nil; intros Hin;
    naive_solver.
Qed.

(** X4: when the transcript tool cannot be started at all, the run returns
    "Unexpected error: " followed by the message, the summarizer is not
    started, and the stage-1 artifact, opened before the tool was started,
    is left behind empty. *)
Theorem transcript_spawn_fault w url σ msg :
  ERun (transcript_command url) (SpawnFault msg)
    ∈ events_of (process_youtube_url w url) σ →
  outcome_of (process_youtube_url w url) σ
    = Return (str "Unexpected error: " ++ msg) ∧
  Forall (λ e, is_summarizer_run e = false)
    (events_of (process_youtube_url w url) σ) ∧
  ∃ v, extract_video_id url = Some v ∧
    files_after (process_youtube_url w url) σ
      !! transcript_path (run_dir (getcwd w) v (now w)) v = Some [].
Proof.
  with_identifier v Hv. intros Hin.
  cut (outcome_of (process_youtube_url w url) σ
         = Return (str "Unexpected error: " ++ msg) ∧
       Forall (λ e, is_summarizer_run e = false)
         (events_of (process_youtube_url w url) σ) ∧
       files_after (process_youtube_url w url) σ
         !! transcript_path (run_dir (getcwd w) v (now w)) v = Some []).
  { intros (? & ? & ?). eauto. }
  revert Hin. unfold_run. rewrite Hv, H.
  split_world; rewrite ?elem_of_cons, ?elem_of_nil; intros Hin;
    rewrite ?lookup_insert_eq; repeat split; repeat constructor; naive_solver.
Qed.

Lemma makedirs_fault_ends_the_run_witness :
  process_youtube_url read_only_world sample_url ∅
  = (Return (str "Unexpected error: [Errno 30] Read-only file system"), ∅,
     [EMakedirs (run_dir (str "/srv/bot") sample_id noon)
        (Fault (str "[Errno 30] Read-only file system"))]).
Proof.
  apply (makedirs_fault_ends_the_run read_only_world sample_url ∅
           (run_dir (str "/srv/bot") sample_id noon)
           (str "[Errno 30] Read-only file system")).
  apply list_elem_of_In. vm_compute. auto.
Defined.

Lemma transcript_spawn_fault_witness :
  outcome_of (process_youtube_url no_yt_world sample_url) ∅
    = Return (str "Unexpected error: [Errno 2] No such file or directory: 'yt'") ∧
  Forall (λ e, is_summarizer_run e = false)
    (events_of (process_youtube_url no_yt_world sample_url) ∅) ∧
  ∃ v, extract_video_id sample_url = Some v ∧
    files_after (process_youtube_url no_yt_world sample_url) ∅
      !! transcript_path (run_dir (getcwd no_yt_world) v (now no_yt_world)) v
    = Some [].
Proof.
  apply (transcript_spawn_fault no_yt_world sample_url ∅
           (str "[Errno 2] No such file or directory: 'yt'")).
  apply list_elem_of_In. vm_compute. auto 10.
Defined.



(** X6: the summarizer is started only after the transcript tool has
    exited with status zero, with the line [cat <stage-1 artifact> | fabric
    --pattern extract_wisdom], and it runs on files among which the
    stage-1 artifact holds exactly the standard output of the transcript
    tool. *)
Theorem summarizer_reads_the_transcript w url σ line o :
  ERun (ShellLine line) o ∈ events_of (process_youtube_url w url) σ →
  ∃ v out1 err1 σ1,
    extract_video_id url = Some v ∧
    line = str "cat " ++ transcript_path (run_dir (getcwd w) v (now w)) v
           ++ str " | fabric --pattern extract_wisdom" ∧
    ERun (transcript_command url) (Exited 0 out1 err1)
      ∈ events_of (process_youtube_url w url) σ ∧
    σ1 !! transcript_path (run_dir (getcwd w) v (now w)) v = Some out1 ∧
    o = spawn w (ShellLine line) σ1.
Proof.
  with_identifier v Hv. unfold_run. rewrite Hv, H.
  split_world; rewrite ?elem_of_cons, ?elem_of_nil; intros Hin;
    destruct_or?; simplify_eq;
    match goal with
    | Ht : spawn _ (transcript_command _) _ = Exited _ ?out ?err,
      Hs : spawn _ (fabric_command _) ?σ1 = _ |- _ =>
        exists v, out, err, σ1;
        split; [done|]; split; [done|];
        split; [rewrite !elem_of_cons; by auto 10|];
        split; [by rewrite lookup_insert_eq | by rewrite <- Hs]
    end.
Qed.

Lemma summarizer_reads_the_transcript_witness :
  ∃ v out1 err1 σ1,
    extract_video_id sample_url = Some v ∧
    str "cat /srv/bot/youtube_transcripts/dQw4w9WgXcQ_20240301_120000/dQw4w9WgXcQ.txt | fabric --pattern extract_wisdom"
    = str "cat " ++ transcript_path
                      (run_dir (getcwd (sample_world 0 0)) v (now (sample_world 0 0))) v
      ++ str " | fabric --pattern extract_wisdom" ∧
    ERun (transcript_command sample_url) (Exited 0 out1 err1)
      ∈ events_of (process_youtube_url (sample_world 0 0) sample_url) ∅ ∧
    σ1 !! transcript_path
            (run_dir (getcwd (sample_world 0 0)) v (now (sample_world 0 0))) v
    = Some out1 ∧
    Exited 0 (str "  IDEAS: persistence. " ++ nl) []
    = spawn (sample_world 0 0)
        (ShellLine (str "cat /srv/bot/youtube_transcripts/dQw4w9WgXcQ_20240301_120000/dQw4w9WgXcQ.txt | fabric --pattern extract_wisdom"))
        σ1.
Proof.
  apply (summarizer_reads_the_transcript (sample_world 0 0) sample_url ∅).
  apply list_elem_of_In. vm_compute. auto 10.
Defined.

End PipelineMore.

(* ================================================================== *)
(** * More about the extractor *)

Section ExtractorMore.
Implicit Types (s v rest : text) (r : regex).

Lemma search_match_at r s m : match_at r s = Some m → search r s = Some m.
Proof. intros H. destruct s; simpl; by rewrite H. Qed.

Lemma search_cons_None r c s :
  match_at r (c :: s) = None → search r (c :: s) = search r s.
Proof. intros H. simpl. by rewrite H. Qed.

Lemma identifier_group_run {A} v rest (g : capture) (k : text → capture → option A) :
  valid_identifier v →
  run (Group (Count 11 is_word_or_hyphen)) (v ++ rest) g k = k rest (Some v).
Proof.
  intros [Hlen Hv]. cbn [run]. rewrite <- Hlen, count_class_app by done.
  by rewrite length_app, Nat.add_sub, take_app_length.
Qed.

Lemma match_at_v_equals v rest :
  valid_identifier v →
  match_at pattern_v_or_slash ("v"%char :: "="%char :: v ++ rest)
  = Some {| group1 := Some v |}.
Proof.
  intros Hv. unfold match_at, pattern_v_or_slash.
  change (run (Seq ?a ?b) ?s ?g ?k) with (run a s g (λ s' g', run b s' g' k)).
  change (run (Alt ?a ?b) ?s ?g ?k)
    with (match run a s g k with Some x => Some x | None => run b s g k end).
  change (run (Lit (str "v=")) ("v"%char :: "="%char :: v ++ rest) None ?k)
    with (k (v ++ rest) None).
  cbv beta. by rewrite identifier_group_run.
Qed.

Lemma match_at_slash v rest :
  valid_identifier v →
  match_at pattern_v_or_slash ("/"%char :: v ++ rest)
  = Some {| group1 := Some v |}.
Proof.
  intros Hv. unfold match_at, pattern_v_or_slash.
  change (run (Seq ?a ?b) ?s ?g ?k) with (run a s g (λ s' g', run b s' g' k)).
  change (run (Alt ?a ?b) ?s ?g ?k)
    with (match run a s g k with Some x => Some x | None => run b s g k end).
  change (run (Lit (str "v=")) ("/"%char :: v ++ rest) None ?k) with (@None match_object).
  change (run (Lit (str "/")) ("/"%char :: v ++ rest) None ?k)
    with (k (v ++ rest) None).
  cbv beta iota. by rewrite identifier_group_run.
Qed.

(** Walk over the positions of a literal prefix at which the first rule
    visibly fails. *)
Ltac skip_failing_positions :=
  unfold extract_video_id, patterns, first_match, str;
  cbn [Stdlib.Strings.String.list_ascii_of_string app];
  repeat (rewrite search_cons_None by reflexivity).

(** X8: for every identifier of eleven characters of the class, the
    extractor answers with it on the three usual forms of a video URL,
    whatever follows the identifier. *)
Theorem extract_video_id_usual_forms v rest :
  valid_identifier v →
  extract_video_id (str "https://www.youtube.com/watch?v=" ++ v ++ rest) = Some v ∧
  extract_video_id (str "https://youtube.com/watch?v=" ++ v ++ rest) = Some v ∧
  extract_video_id (str "https://youtu.be/" ++ v ++ rest) = Some v.
Proof.
  intros Hv. repeat split; skip_failing_positions.
  - by rewrite (search_match_at _ _ _ (match_at_v_equals v rest Hv)).
  - by rewrite (search_match_at _ _ _ (match_at_v_equals v rest Hv)).
  - by rewrite (search_match_at _ _ _ (match_at_slash v rest Hv)).
Qed.

Lemma extract_video_id_usual_forms_witness :
  extract_video_id (str "https://www.youtube.com/watch?v=" ++ sample_id ++ str "&t=42")
    = Some sample_id ∧
  extract_video_id (str "https://youtube.com/watch?v=" ++ sample_id ++ str "&t=42")
    = Some sample_id ∧
  extract_video_id (str "https://youtu.be/" ++ sample_id ++ str "&t=42")
    = Some sample_id.
Proof.
  apply (extract_video_id_usual_forms sample_id (str "&t=42")).
  split; reflexivity.
Defined.

(** X9: the leftmost occurrence decides, and nothing checks where the
    token ends: when the path of a URL starts with eleven characters of
    the class, these are the answer, also when the segment goes on and a
    [v=] parameter with the real identifier follows. *)
Theorem extract_video_id_path_shadows_parameter seg more v :
  valid_identifier seg →
  extract_video_id (str "https://www.youtube.com/" ++ seg ++ more
                    ++ str "?v=" ++ v) = Some seg.
Proof.
  intros Hseg. skip_failing_positions.
  by rewrite (search_match_at _ _ _ (match_at_slash seg _ Hseg)).
Qed.

Lemma extract_video_id_path_shadows_parameter_witness :
  extract_video_id (str "https://www.youtube.com/" ++ str "playlist_of"
                    ++ str "_mine/watch" ++ str "?v=" ++ sample_id)
  = Some (str "playlist_of").
Proof.
  apply (extract_video_id_path_shadows_parameter (str "playlist_of")
           (str "_mine/watch") sample_id).
  split; reflexivity.
Defined.

End ExtractorMore.

(* ================================================================== *)
(** * More about the dispatcher *)

Section DispatcherMore.
Implicit Types (w : world) (message channel url u ws : text) (σ : files).

(** What the command pattern captures is a platform URL that stands
    between angle brackets in the message. *)
Lemma command_capture message m :
  search command_pattern message = Some m →
  ∃ u, group1 m = Some u ∧ platform_url u ∧
       infix_of (str "<" ++ u ++ str ">") message.
Proof.
  intros (before & x & after & -> & Hm)%search_sound.
  apply command_pattern_inv in Hm as (ws & u & -> & _ & _ & Hu & Hg).
  exists u. split; [done|]. split; [done|].
  exists (before ++ trigger ++ ws), after. by rewrite <- !(assoc_L (++)).
Qed.

Lemma transcript_is_the_only_argv w url σ args o :
  ERun (Argv args) o ∈ events_of (process_youtube_url w url) σ →
  args = [str "yt"; str "--transcript"; url].
Proof.
  unfold_run.
  destruct (extract_video_id url) as [v|]; [|by intros ?%elem_of_nil].
  destruct (truthy v); [|by intros ?%elem_of_nil].
  split_world; rewrite ?elem_of_cons, ?elem_of_nil; intros Hin;
    destruct_or?; by simplify_eq.
Qed.

(** One character outside the class ends a run of the class in one way
    only. *)
Lemma span_unique (p : ascii → bool) (a a' r r' : text) c c' :
  forallb p a = true → forallb p a' = true → p c = false → p c' = false →
  a ++ c :: r = a' ++ c' :: r' → a = a' ∧ r = r'.
Proof.
  revert a'. induction a as [|x a IH]; intros [|y a'] Ha Ha' Hc Hc' H;
    simpl in *.
  - by injection H as -> ->.
  - injection H as -> _. apply andb_true_iff in Ha' as [? _]. congruence.
  - injection H as -> _. apply andb_true_iff in Ha as [? _]. congruence.
  - injection H as -> H.
    apply andb_true_iff in Ha as [_ Ha]. apply andb_true_iff in Ha' as [_ Ha'].
    destruct (IH a' Ha Ha' Hc Hc' H) as [-> ->]. done.
Qed.

Lemma span_to_the_end (p : ascii → bool) (a a' r' : text) c :
  forallb p a = true → p c = false →
  a ++ [c] = a' ++ c :: r' → a = a' ∧ r' = [].
Proof.
  revert a'. induction a as [|x a IH]; intros [|y a'] Ha Hc H; simpl in *.
  - by injection H as <-.
  - injection H as _ H. by destruct a'.
  - injection H as -> _. apply andb_true_iff in Ha as [? _]. congruence.
  - injection H as -> H. apply andb_true_iff in Ha as [_ Ha].
    destruct (IH a' Ha Hc H) as [-> ->]. done.
Qed.

(** On the command in its plain form the pattern is found at the start and
    captures the URL between the brackets, all of it. *)
Lemma plain_command_capture ws u :
  ws ≠ [] → forallb is_space ws = true → platform_url u →
  no_closing_bracket u = true →
  search command_pattern (trigger ++ ws ++ str "<" ++ u ++ str ">")
  = Some {| group1 := Some u |}.
Proof.
  intros Hne Hws Hu Hno.
  destruct (match_at_complete command_pattern
              (trigger ++ ws ++ str "<" ++ u ++ str ">") [] (Some u))
    as [[g] Hm]; [by apply command_pattern_intro|].
  rewrite app_nil_r in Hm. apply search_match_at. rewrite Hm. do 2 f_equal.
  apply match_at_sound in Hm as (x & s' & Hx & Hm). simpl in Hm.
  apply command_pattern_inv in Hm as (ws' & u' & -> & _ & Hws' & _ & ->).
  rewrite <- !(assoc_L (++)) in Hx. apply app_inv_head in Hx.
  change (str "<" ++ ?t) with ("<"%char :: t) in Hx.
  apply span_unique with (p := is_space) in Hx as [_ Hx]; [|done..].
  change (str ">" ++ s') with (">"%char :: s') in Hx.
  apply span_to_the_end with (p := λ c, negb (is_char ">" c)) in Hx as [-> _];
    done.
Qed.

(** X10: when the chat client refuses the acknowledgment of an accepted
    command, its exception leaves [process_message_text]: the pipeline is
    not run, no file is touched and nothing else is posted. *)
Theorem refused_acknowledgment_stops_the_command w message channel σ msg :
  is_command message = true →
  post_message w channel ack_text = Fault msg →
  process_message_text w message channel σ
  = (Raise (OtherException msg), σ, [EPost channel ack_text (Fault msg)]).
Proof.
  unfold is_command. intros [Ht Hs%bool_decide_eq_true]%andb_true_iff Hpost.
  destruct Hs as [m Hm]. unfold process_message_text. rewrite Ht, Hm.
  destruct (group1 m); unfold mbind, M_bind, chat_postMessage; by rewrite Hpost.
Qed.

Lemma refused_acknowledgment_stops_the_command_witness :
  process_message_text muted_world
    (str "extract_wisdom <https://youtu.be/dQw4w9WgXcQ>") sample_channel ∅
  = (Raise (OtherException (str "channel_not_found")), ∅,
     [EPost sample_channel ack_text (Fault (str "channel_not_found"))]).
Proof.
  apply (refused_acknowledgment_stops_the_command muted_world
           (str "extract_wisdom <https://youtu.be/dQw4w9WgXcQ>")
           sample_channel ∅ (str "channel_not_found")); reflexivity.
Defined.

(** X11: once the acknowledgment of an accepted command went through,
    exactly two texts are posted: the acknowledgment and the result block
    around whatever the pipeline returned for the bracketed URL, failure
    texts included. *)
Theorem every_outcome_is_delivered w message channel σ :
  is_command message = true →
  post_message w channel ack_text = Done →
  ∃ url s,
    platform_url url ∧ infix_of (str "<" ++ url ++ str ">") message ∧
    outcome_of (process_youtube_url w url) σ = Return s ∧
    posted_texts (events_of (process_message_text w message channel) σ)
    = [ack_text; result_text s].
Proof.
  unfold is_command. intros [Ht Hs%bool_decide_eq_true]%andb_true_iff Hpost.
  destruct Hs as [m Hm].
  destruct (command_capture message m Hm) as (url & Hg & Hu & Hin).
  destruct (accepted_events w message channel σ m url Ht Hm Hg)
    as (s & t & Hs & _ & Hposts & ->).
  exists url, s. do 3 (split; [done|]). rewrite Hpost.
  change (?x :: ?l) with ([x] ++ l).
  by rewrite !posted_texts_app, (posted_texts_no_posts t).
Qed.

Lemma every_outcome_is_delivered_witness :
  ∃ url s,
    platform_url url ∧
    infix_of (str "<" ++ url ++ str ">")
      (str "extract_wisdom <https://youtu.be/dQw4w9WgXcQ>") ∧
    outcome_of (process_youtube_url (sample_world 3 0) url) ∅ = Return s ∧
    posted_texts (events_of (process_message_text (sample_world 3 0)
                    (str "extract_wisdom <https://youtu.be/dQw4w9WgXcQ>")
                    sample_channel) ∅)
    = [ack_text; result_text s].
Proof.
  apply (every_outcome_is_delivered (sample_world 3 0)
           (str "extract_wisdom <https://youtu.be/dQw4w9WgXcQ>")
           sample_channel ∅); reflexivity.
Defined.

(** X12: whatever the message, the only argument list that
    [process_message_text] ever starts a process with is [yt --transcript
    URL], where the URL is a platform URL standing between angle brackets
    in the message. *)
Theorem only_bracketed_urls_reach_the_tool w message channel σ args o :
  ERun (Argv args) o ∈ events_of (process_message_text w message channel) σ →
  ∃ url, args = [str "yt"; str "--transcript"; url] ∧ platform_url url ∧
         infix_of (str "<" ++ url ++ str ">") message.
Proof.
  destruct (has_trigger message) eqn:Ht;
    [|unfold events_of, process_message_text; rewrite Ht;
      by intros ?%elem_of_nil].
  destruct (search command_pattern message) as [m|] eqn:Hm.
  - destruct (command_capture message m Hm) as (url & Hg & Hu & Hin).
    destruct (accepted_events w message channel σ m url Ht Hm Hg)
      as (s & t & _ & Ht' & _ & ->).
    intros H. exists url. split; [|done].
    apply (transcript_is_the_only_argv w url σ args o). rewrite Ht'.
    destruct (post_message w channel ack_text);
      rewrite ?elem_of_cons, ?elem_of_app, ?elem_of_cons, ?elem_of_nil in H;
      naive_solver.
  - unfold events_of, process_message_text, chat_postMessage. rewrite Ht, Hm.
    destruct (post_message w channel usage_text); simpl;
      rewrite elem_of_cons, elem_of_nil; naive_solver.
Qed.

Lemma only_bracketed_urls_reach_the_tool_witness :
  ∃ url, [str "yt"; str "--transcript"; sample_url]
         = [str "yt"; str "--transcript"; url] ∧ platform_url url ∧
         infix_of (str "<" ++ url ++ str ">")
           (str "extract_wisdom <https://youtu.be/dQw4w9WgXcQ>").
Proof.
  apply (only_bracketed_urls_reach_the_tool (sample_world 0 0)
           (str "extract_wisdom <https://youtu.be/dQw4w9WgXcQ>")
           sample_channel ∅ [str "yt"; str "--transcript"; sample_url]
           (Exited 0 (str "never gonna give you up") [])).
  apply list_elem_of_In. vm_compute. auto 10.
Defined.

(** X13: for the command in its plain form (the command word, white space,
    a platform URL without [>] between angle brackets, nothing else) the
    pipeline is run on exactly the URL between the brackets, between the
    acknowledgment and the result message. *)
Theorem plain_command_runs_on_its_url w ws u channel σ :
  ws ≠ [] → forallb is_space ws = true → platform_url u →
  no_closing_bracket u = true →
  ∃ s, outcome_of (process_youtube_url w u) σ = Return s ∧
    events_of (process_message_text w
                 (trigger ++ ws ++ str "<" ++ u ++ str ">") channel) σ
    = EPost channel ack_text (post_message w channel ack_text) ::
      match post_message w channel ack_text with
      | Done =>
          events_of (process_youtube_url w u) σ
          ++ [EPost channel (result_text s)
                (post_message w channel (result_text s))]
      | Fault _ => []
      end.
Proof.
  intros Hne Hws Hu Hno.
  pose proof (plain_command_capture ws u Hne Hws Hu Hno) as Hm.
  destruct (accepted_events w (trigger ++ ws ++ str "<" ++ u ++ str ">")
              channel σ _ u eq_refl Hm eq_refl)
    as (s & t & Hs & <- & _ & H).
  by exists s.
Qed.

Lemma plain_command_runs_on_its_url_witness :
  ∃ s, outcome_of (process_youtube_url (sample_world 0 0) sample_url) ∅ = Return s ∧
    events_of (process_message_text (sample_world 0 0)
                 (trigger ++ str " " ++ str "<" ++ sample_url ++ str ">")
                 sample_channel) ∅
    = EPost sample_channel ack_text
        (post_message (sample_world 0 0) sample_channel ack_text) ::
      match post_message (sample_world 0 0) sample_channel ack_text with
      | Done =>
          events_of (process_youtube_url (sample_world 0 0) sample_url) ∅
          ++ [EPost sample_channel (result_text s)
                (post_message (sample_world 0 0) sample_channel (result_text s))]
      | Fault _ => []
      end.
Proof.
  apply (plain_command_runs_on_its_url (sample_world 0 0) (str " ") sample_url
           sample_channel ∅); try reflexivity; [done|].
  exists (str "https"), [], (str "youtu.be"), sample_id. by repeat split; auto.
Defined.

End DispatcherMore.

(* ================================================================== *)
(** * The event handler *)

Section Handler.
Implicit Types (w : world) (body : dict (dict text)) (event : dict text)
  (σ : files).

Lemma getitem_Some {V} w (d : dict V) key v :
  d !! key = Some v → getitem w d key = mret v.
Proof. intros H. unfold getitem. by rewrite H. Qed.

Lemma handle_event_lookup w body event σ :
  body !! str "event" = Some event →
  handle_message_events w body σ
  = (if negb (contains event (str "subtype")) && contains event (str "text")
     then
       message ← getitem w event (str "text");
       channel ← getitem w event (str "channel");
       process_message_text w message channel
     else mret ()) σ.
Proof.
  intros Hb. unfold handle_message_events.
  rewrite (getitem_Some w body (str "event") event Hb).
  unfold mbind at 1, M_bind at 1, mret, M_ret.
  by destruct (_ σ) as [[[|]]].
Qed.

(** X14: an event that carries a subtype (an edit, a deletion, a bot
    echo) or no text is ignored: the handler returns without a single
    call, whatever the text says, a well-formed command included. *)
Theorem subtyped_events_are_ignored w body event σ :
  body !! str "event" = Some event →
  is_Some (event !! str "subtype") ∨ event !! str "text" = None →
  handle_message_events w body σ = (Return (), σ, []).
Proof.
  intros Hb Hev. rewrite (handle_event_lookup w body event σ Hb).
  unfold contains. destruct Hev as [Hsub | Htext].
  - by rewrite (bool_decide_eq_true_2 _ Hsub).
  - rewrite Htext, andb_comm. by rewrite bool_decide_eq_false_2 by by intros [? ?].
Qed.

Lemma subtyped_events_are_ignored_witness :
  handle_message_events (sample_world 0 0)
    {[ str "event" :=
         <[ str "subtype" := str "message_changed" ]>
           (sample_event (str "extract_wisdom <https://youtu.be/dQw4w9WgXcQ>")) ]}
    ∅
  = (Return (), ∅, []).
Proof.
  apply (subtyped_events_are_ignored (sample_world 0 0) _
           (<[ str "subtype" := str "message_changed" ]>
              (sample_event (str "extract_wisdom <https://youtu.be/dQw4w9WgXcQ>")))).
  - apply lookup_singleton_eq.
  - left. rewrite lookup_insert_eq. by eexists.
Defined.

(** X15: a new message with a text but no channel makes the handler raise
    the [KeyError] of the missing key before anything is posted or run,
    also when the text is not a command at all. *)
Theorem missing_channel_raises w body event σ message :
  body !! str "event" = Some event →
  event !! str "subtype" = None →
  event !! str "text" = Some message →
  event !! str "channel" = None →
  handle_message_events w body σ
  = (Raise (OtherException (repr_str w (str "channel"))), σ, []).
Proof.
  intros Hb Hsub Htext Hch. rewrite (handle_event_lookup w body event σ Hb).
  unfold contains, getitem. rewrite Hsub, Htext, Hch.
  rewrite bool_decide_eq_false_2 by by intros [? ?].
  by rewrite bool_decide_eq_true_2 by by eexists.
Qed.

Lemma missing_channel_raises_witness :
  handle_message_events (sample_world 0 0)
    {[ str "event" := {[ str "text" := str "good morning" ]} ]} ∅
  = (Raise (OtherException (str "'channel'")), ∅, []).
Proof.
  apply (missing_channel_raises (sample_world 0 0) _
           {[ str "text" := str "good morning" ]} ∅ (str "good morning")).
  - apply lookup_singleton_eq.
  - reflexivity.
  - apply lookup_singleton_eq.
  - reflexivity.
Defined.

(** X16: a new message (no subtype) with a text and a channel is handled
    exactly as [process_message_text] handles that text on that channel;
    no other field of the event, the sender included, has any influence. *)
Theorem new_messages_are_dispatched w body event σ message channel :
  body !! str "event" = Some event →
  event !! str "subtype" = None →
  event !! str "text" = Some message →
  event !! str "channel" = Some channel →
  handle_message_events w body σ = process_message_text w message channel σ.
Proof.
  intros Hb Hsub Htext Hch. rewrite (handle_event_lookup w body event σ Hb).
  unfold contains, getitem. rewrite Hsub, Htext, Hch.
  rewrite bool_decide_eq_false_2 by by intros [? ?].
  rewrite bool_decide_eq_true_2 by by eexists.
  simpl. unfold mbind, M_bind, mret, M_ret.
  by destruct (process_message_text w message channel σ) as [[[]]].
Qed.

Lemma new_messages_are_dispatched_witness :
  handle_message_events (sample_world 0 0)
    {[ str "event" := sample_event (str "extract_wisdom please") ]} ∅
  = process_message_text (sample_world 0 0) (str "extract_wisdom please")
      sample_channel ∅.
Proof.
  apply (new_messages_are_dispatched (sample_world 0 0) _
           (sample_event (str "extract_wisdom please")) ∅);
    [apply lookup_singleton_eq | by vm_compute ..].
Defined.

End Handler.

(* ================================================================== *)
(** * Bounds and containment *)

Section Bounds.
Implicit Types (w : world) (message channel url v : text) (σ : files).

Lemma extract_video_id_context url v :
  extract_video_id url = Some v →
  infix_of (str "/" ++ v) url ∨ infix_of (str "v=" ++ v) url.
Proof.
  unfold extract_video_id, patterns. simpl.
  destruct (search pattern_v_or_slash url) as [m|] eqn:H1.
  - apply search_sound in H1 as (before & x & after & -> & Hm).
    apply pattern_v_or_slash_inv in Hm as (v' & Hx & -> & _).
    intros [= <-]. destruct Hx as [-> | ->]; [right | left]; by exists before, after.
  - destruct (search pattern_short_domain url) as [m|] eqn:H2; [|done].
    apply search_short_domain_Some in H2
      as (before & c & v' & after & -> & -> & _).
    intros [= <-]. left. exists (before ++ str "youtu" ++ [c] ++ str "be"), after.
    by rewrite <- !(assoc_L (++)).
Qed.

(** X17: an identifier is only ever taken from right behind a slash or
    behind [v=]; a text of fewer than twelve characters, the empty one
    included, therefore has none. *)
Theorem extract_video_id_needs_twelve_characters url :
  (∀ v, extract_video_id url = Some v →
        infix_of (str "/" ++ v) url ∨ infix_of (str "v=" ++ v) url) ∧
  ((length url < 12)%nat → extract_video_id url = None).
Proof.
  split; [apply extract_video_id_context|].
  intros Hlen. destruct (extract_video_id url) as [v|] eqn:Hv; [|done].
  pose proof (extract_video_id_Some _ _ Hv) as [[Hv11 _] _].
  apply extract_video_id_context in Hv
    as [(before & after & H) | (before & after & H)];
    apply (f_equal length) in H; rewrite !length_app, Hv11 in H;
    simpl in H; lia.
Qed.

Lemma extract_video_id_needs_twelve_characters_witness :
  extract_video_id (str "v=dQw4w9WgX") = None.
Proof.
  apply (proj2 (extract_video_id_needs_twelve_characters (str "v=dQw4w9WgX"))).
  simpl. lia.
Defined.

(** X18: [process_message_text] raises only when the chat client refused a
    message: the exception it raises is the one of a refused post on the
    channel, and with a client that accepts every message it returns
    normally, whatever the pipeline met. *)
Theorem only_a_refused_post_raises w message channel σ :
  (∀ e, outcome_of (process_message_text w message channel) σ = Raise e →
     ∃ posted msg, e = OtherException msg ∧
       EPost channel posted (Fault msg)
         ∈ events_of (process_message_text w message channel) σ) ∧
  ((∀ posted, post_message w channel posted = Done) →
   outcome_of (process_message_text w message channel) σ = Return ()).
Proof.
  assert (∀ e, outcome_of (process_message_text w message channel) σ = Raise e →
     ∃ posted msg, e = OtherException msg ∧
       EPost channel posted (Fault msg)
         ∈ events_of (process_message_text w message channel) σ ∧
       post_message w channel posted = Fault msg) as Hraise.
  { intros e. unfold outcome_of, events_of, process_message_text.
    destruct (has_trigger message) eqn:Ht; [|done].
    destruct (search command_pattern message) as [m|] eqn:Hm.
    - destruct (command_capture message m Hm) as (url & -> & _ & _).
      destruct (process_youtube_url_total w url σ) as (s & σ' & t & Hrun & _).
      unfold mbind, M_bind, chat_postMessage.
      destruct (post_message w channel ack_text) as [|msg] eqn:Hack.
      + rewrite Hrun.
        destruct (post_message w channel (result_text s)) as [|msg] eqn:Hres;
          simpl; [done|].
        intros [= <-]. exists (result_text s), msg.
        rewrite elem_of_cons, elem_of_app, elem_of_cons. by eauto 10.
      + simpl. intros [= <-]. exists ack_text, msg.
        rewrite elem_of_cons. by eauto 10.
    - unfold chat_postMessage.
      destruct (post_message w channel usage_text) as [|msg] eqn:Hpost;
        simpl; [done|].
      intros [= <-]. exists usage_text, msg. rewrite elem_of_cons. by eauto 10. }
  split.
  - intros e He. destruct (Hraise e He) as (posted & msg & ? & ? & _). eauto.
  - intros Hok.
    destruct (outcome_of (process_message_text w message channel) σ)
      as [[]|e] eqn:Hout; [done|].
    destruct (Hraise e eq_refl) as (posted & msg & _ & _ & Hpost).
    rewrite Hok in Hpost. done.
Qed.

Lemma only_a_refused_post_raises_witness :
  outcome_of (process_message_text (sample_world 5 0)
                (str "extract_wisdom <https://youtu.be/dQw4w9WgXcQ>")
                sample_channel) ∅ = Return ().
Proof.
  apply (proj2 (only_a_refused_post_raises (sample_world 5 0)
                  (str "extract_wisdom <https://youtu.be/dQw4w9WgXcQ>")
                  sample_channel ∅)).
  reflexivity.
Defined.

End Bounds.
